(** * Verification of [layer_utils/vector_layer.py] (rs-insar-explorer)

    A shallow embedding of the vector-layer helpers: the layer validator,
    the velocity field locator, the time-series check and the date/value
    attribute parser, together with the part of Python's [re] and
    [datetime] they rely on.

    Modelling scope.  A Python [str] is a sequence of code points; here a
    character is an [ascii], read as a code point in 0..255 (Latin-1), and a
    [str] is a [string].  In that range [\d] is [0-9], [\s] is the set
    9..13, 28..32, 133, 160, and case folding only pairs A-Z with a-z and
    the accented capitals 192..222 (but 215) with 224..254. *)

From Stdlib Require Import Ascii String NArith ZArith Lia Bool.
From stdpp Require Import strings gmap list.

Local Open Scope string_scope.

(** ** Characters and strings *)

Module Str.

Definition code (c : ascii) : N := N_of_ascii c.

Definition between (lo hi n : N) : bool := ((lo <=? n) && (n <=? hi))%N.

(** [\d] on a code point below 256. *)
Definition is_digit (c : ascii) : bool := between 48 57 (code c).

(** [\s] on a code point below 256 (Python's [str.isspace]). *)
Definition is_space (c : ascii) : bool :=
  let n := code c in
  between 9 13 n || between 28 32 n || (n =? 133)%N || (n =? 160)%N.

(** [str.lower] on one code point below 256. *)
Definition char_lower (c : ascii) : ascii :=
  let n := code c in
  if between 65 90 n || (between 192 222 n && negb (n =? 215)%N)
  then ascii_of_N (n + 32) else c.

(** [s.lower()] *)
Fixpoint lower (s : string) : string :=
  match s with
  | EmptyString => EmptyString
  | String c s' => String (char_lower c) (lower s')
  end.

(** [s.startswith(p)] *)
Fixpoint startswith (p s : string) : bool :=
  match p, s with
  | EmptyString, _ => true
  | String _ _, EmptyString => false
  | String a p', String b s' => Ascii.eqb a b && startswith p' s'
  end.

(** [sub in s]: the substring test of Python's [in] on two [str]. *)
Fixpoint contains (sub s : string) : bool :=
  startswith sub s ||
  match s with
  | EmptyString => false
  | String _ s' => contains sub s'
  end.

(** [any([ele in s for ele in keys])] *)
Definition any_in (keys : list string) (s : string) : bool :=
  existsb (fun ele => contains ele s) keys.

(** [not s]: the truth value of a [str] is false exactly for the empty one. *)
Definition is_empty (s : string) : bool :=
  match s with EmptyString => true | String _ _ => false end.

(** *** The text [float] accepts

    [float] on a [str] strips blanks at both ends, drops underscores that
    stand between digits, and then wants a sign-prefixed decimal number
    with an optional exponent, or inf, infinity or nan in any case. *)

(** The blanks [float] strips: unlike [\s] they leave out 28..31. *)
Definition is_blank (c : ascii) : bool :=
  let n := code c in
  between 9 13 n || (n =? 32)%N || (n =? 133)%N || (n =? 160)%N.

Fixpoint lstrip (s : string) : string :=
  match s with
  | String c s' => if is_blank c then lstrip s' else s
  | EmptyString => EmptyString
  end.

Fixpoint rstrip (s : string) : string :=
  match s with
  | String c s' =>
      let r := rstrip s' in
      if is_empty r && is_blank c then EmptyString else String c r
  | EmptyString => EmptyString
  end.

Definition is_underscore (c : ascii) : bool := Ascii.eqb c "_".

(** Underscores may only stand between two digits; they are dropped. *)
Fixpoint drop_underscores (prev : option ascii) (s : string)
  : option string :=
  match s with
  | EmptyString =>
      match prev with
      | Some p => if is_underscore p then None else Some EmptyString
      | None => Some EmptyString
      end
  | String c s' =>
      if is_underscore c then
        match prev with
        | Some p => if is_digit p then drop_underscores (Some c) s' else None
        | None => None
        end
      else
        match prev with
        | Some p =>
            if is_underscore p && negb (is_digit c) then None
            else option_map (String c) (drop_underscores (Some c) s')
        | None => option_map (String c) (drop_underscores (Some c) s')
        end
  end.

Definition is_sign (c : ascii) : bool := Ascii.eqb c "+" || Ascii.eqb c "-".

Definition drop_sign (s : string) : string :=
  match s with
  | String c s' => if is_sign c then s' else s
  | EmptyString => s
  end.

(** Splits off the leading digits: their number and the rest. *)
Fixpoint digits (s : string) : nat * string :=
  match s with
  | String c s' =>
      if is_digit c then let '(n, r) := digits s' in (S n, r) else (0, s)
  | EmptyString => (0, s)
  end.

(** [[eE][+-]?digits] up to the end of the text, or nothing. *)
Definition exponent_ok (s : string) : bool :=
  match s with
  | EmptyString => true
  | String c s' =>
      if Ascii.eqb (char_lower c) "e" then
        let '(n, r) := digits (drop_sign s') in
        Nat.ltb 0 n && is_empty r
      else false
  end.

(** [digits[.digits]] or [.digits], with at least one digit, then an
    optional exponent. *)
Definition decimal_ok (s : string) : bool :=
  let '(n1, r1) := digits s in
  match r1 with
  | String c r2 =>
      if Ascii.eqb c "." then
        let '(n2, r3) := digits r2 in
        Nat.ltb 0 (n1 + n2) && exponent_ok r3
      else Nat.ltb 0 n1 && exponent_ok r1
  | EmptyString => Nat.ltb 0 n1
  end.

Definition inf_or_nan (s : string) : bool :=
  let w := lower s in
  String.eqb w "inf" || String.eqb w "infinity" || String.eqb w "nan".

(** Does [float(s)] accept the text [s]? *)
Definition float_literal (s : string) : bool :=
  match drop_underscores None (rstrip (lstrip s)) with
  | Some t => let u := drop_sign t in decimal_ok u || inf_or_nan u
  | None => false
  end.

(** The double-quote character, which the messages embed. *)
Definition dq : string := String (ascii_of_N 34) EmptyString.

End Str.

(** ** Regular expressions: the fragment of [re] the module uses *)

Module Re.

(** Members of a character set, also usable on their own. *)
Inductive atom : Type :=
| Chr (c : ascii)          (* a literal character *)
| Rng (lo hi : ascii)      (* lo-hi *)
| Digit                    (* \d *)
| Space.                   (* \s *)

Inductive regex : Type :=
| Eps                          (*       the empty pattern *)
| Any                          (* .     any character but a newline *)
| One (a : atom)               (* a literal or a category *)
| Set_ (l : list atom)         (* [...] *)
| Seq (r1 r2 : regex)          (* r1 r2 *)
| Alt (r1 r2 : regex)          (* r1|r2 *)
| Opt (r : regex)              (* r?    greedy *)
| StarAny                      (* .*    greedy *)
| Group (i : nat) (r : regex). (* (r)   capturing group number i *)

(** Captured groups, latest capture first. *)
Definition caps : Type := list (nat * string).

Fixpoint lookup_group (i : nat) (g : caps) : option string :=
  match g with
  | [] => None
  | (j, w) :: g' => if Nat.eqb i j then Some w else lookup_group i g'
  end.

(** One character against an atom; [ic] is the IGNORECASE flag.  The
    patterns of this module only have digits in their ranges, which have no
    case variants. *)
Definition atom_ok (ic : bool) (a : atom) (c : ascii) : bool :=
  match a with
  | Chr x =>
      if ic then Ascii.eqb (Str.char_lower c) (Str.char_lower x)
      else Ascii.eqb c x
  | Rng lo hi =>
      Str.between (Str.code lo) (Str.code hi) (Str.code c) ||
      (ic && Str.between (Str.code lo) (Str.code hi)
               (Str.code (Str.char_lower c)))
  | Digit => Str.is_digit c
  | Space => Str.is_space c
  end.

Definition newline : ascii := ascii_of_N 10.

Definition any_ok (c : ascii) : bool := negb (Ascii.eqb c newline).

(** One step of the matcher: the text matched, the input left and the
    groups. *)
Definition outcome : Type := (string * string * caps)%type.

Definition one_char (p : ascii -> bool) (s : string) (g : caps)
  : list outcome :=
  match s with
  | String c s' => if p c then [(String c EmptyString, s', g)] else []
  | EmptyString => []
  end.

(** [.*]: every prefix without a newline, the longest first. *)
Fixpoint star_any (s : string) (g : caps) : list outcome :=
  match s with
  | String c s' =>
      if any_ok c
      then map (fun o : outcome => (String c o.1.1, o.1.2, o.2))
               (star_any s' g) ++ [(EmptyString, s, g)]
      else [(EmptyString, s, g)]
  | EmptyString => [(EmptyString, s, g)]
  end.

(** The backtracking matcher as a list of successes: all the ways [r]
    matches a prefix of [s], in the order in which a backtracking engine
    tries them (left alternative first, greedy operators longest first). *)
Fixpoint run (ic : bool) (r : regex) (s : string) (g : caps)
  : list outcome :=
  match r with
  | Eps => [(EmptyString, s, g)]
  | Any => one_char any_ok s g
  | One a => one_char (atom_ok ic a) s g
  | Set_ l => one_char (fun c => existsb (fun a => atom_ok ic a c) l) s g
  | Seq r1 r2 =>
      flat_map (fun o1 : outcome =>
                  map (fun o2 : outcome =>
                         (o1.1.1 +:+ o2.1.1, o2.1.2, o2.2))
                      (run ic r2 o1.1.2 o1.2))
               (run ic r1 s g)
  | Alt r1 r2 => run ic r1 s g ++ run ic r2 s g
  | Opt r' => run ic r' s g ++ [(EmptyString, s, g)]
  | StarAny => star_any s g
  | Group i r' =>
      map (fun o : outcome => (o.1.1, o.1.2, (i, o.1.1) :: o.2))
          (run ic r' s g)
  end.

(** A match object: the groups of the first success. *)
Definition match_obj : Type := caps.

(** [re.compile(r, flags).match(s)]: anchored at the start of [s]; [None]
    when there is no match. *)
Definition re_match (ic : bool) (r : regex) (s : string)
  : option match_obj :=
  match run ic r s [] with
  | [] => None
  | o :: _ => Some o.2
  end.

(** [p.group(i)], [None] for a group that took no part in the match. *)
Definition group (p : match_obj) (i : nat) : option string :=
  lookup_group i p.

(** [re.sub('[...]?', '', s)] for a set [l]: at each position the pattern
    matches one character of the set, or else the empty string; either
    match is replaced by the empty string and an unmatched character is
    copied. *)
Fixpoint sub_optset_empty (l : list atom) (s : string) : string :=
  match s with
  | EmptyString => EmptyString
  | String c s' =>
      if existsb (fun a => atom_ok false a c) l
      then sub_optset_empty l s'
      else String c (sub_optset_empty l s')
  end.

(** A literal word, character by character. *)
Fixpoint word (w : string) : regex :=
  match w with
  | EmptyString => Eps
  | String c w' => Seq (One (Chr c)) (word w')
  end.

(** A sequence of patterns. *)
Fixpoint cat (l : list regex) : regex :=
  match l with
  | [] => Eps
  | r :: l' => Seq r (cat l')
  end.

End Re.

(** ** Exceptions and results *)

Inductive exn : Type :=
| KeyError      (* a dictionary has no such key *)
| ValueError.   (* [strptime] cannot read its input *)

Inductive res (A : Type) : Type :=
| Ok (a : A)
| Raise (e : exn).

Arguments Ok {A} a.
Arguments Raise {A} e.

Definition bind {A B : Type} (x : res A) (f : A -> res B) : res B :=
  match x with
  | Ok a => f a
  | Raise e => Raise e
  end.

Notation "'let?' x ':=' c1 'in' c2" := (bind c1 (fun x => c2))
  (at level 10, x name, c1 at level 100, c2 at level 200).

(** ** Dates: the part of [datetime.strptime] the parser uses *)

Module Datetime.

Record datetime : Type := mk_datetime {
  year : nat; month : nat; day : nat;
  hour : nat; minute : nat; second : nat
}.

Inductive directive : Type := dY | dm | dd | dH | dM | dS.

(** A format is a sequence of directives: ['%Y%m%d'] is [[dY; dm; dd]]. *)
Definition format : Type := list directive.

Definition width (d : directive) : nat :=
  match d with dY => 4 | _ => 2 end.

Definition set_field (d : directive) (v : nat) (t : datetime) : datetime :=
  match d with
  | dY => mk_datetime v (month t) (day t) (hour t) (minute t) (second t)
  | dm => mk_datetime (year t) v (day t) (hour t) (minute t) (second t)
  | dd => mk_datetime (year t) (month t) v (hour t) (minute t) (second t)
  | dH => mk_datetime (year t) (month t) (day t) v (minute t) (second t)
  | dM => mk_datetime (year t) (month t) (day t) (hour t) v (second t)
  | dS => mk_datetime (year t) (month t) (day t) (hour t) (minute t) v
  end.

Definition digit_val (c : ascii) : option nat :=
  if Str.is_digit c then Some (N.to_nat (Str.code c - 48)) else None.

(** Reads exactly [n] decimal digits. *)
Fixpoint read_int (n acc : nat) (s : string) : option (nat * string) :=
  match n with
  | O => Some (acc, s)
  | S n' =>
      match s with
      | String c s' =>
          match digit_val c with
          | Some v => read_int n' (10 * acc + v) s'
          | None => None
          end
      | EmptyString => None
      end
  end.

Fixpoint read_fields (fmt : format) (s : string) (t : datetime)
  : option datetime :=
  match fmt with
  | [] => if Str.is_empty s then Some t else None
  | d :: fmt' =>
      match read_int (width d) 0 s with
      | Some (v, s') => read_fields fmt' s' (set_field d v t)
      | None => None
      end
  end.

Definition is_leap (y : nat) : bool :=
  Nat.eqb (y mod 4) 0 && (negb (Nat.eqb (y mod 100) 0) || Nat.eqb (y mod 400) 0).

Definition days_in_month (y m : nat) : nat :=
  match m with
  | 2 => if is_leap y then 29 else 28
  | 4 | 6 | 9 | 11 => 30
  | _ => 31
  end.

Definition valid (t : datetime) : bool :=
  Nat.leb 1 (year t) && Nat.leb 1 (month t) && Nat.leb (month t) 12 &&
  Nat.leb 1 (day t) && Nat.leb (day t) (days_in_month (year t) (month t)) &&
  Nat.leb (hour t) 23 && Nat.leb (minute t) 59 && Nat.leb (second t) 59.

(** [datetime.strptime(s, fmt)] for a format made of [%Y %m %d %H %M %S]
    and a string [s] of decimal digits whose length is the sum of the
    full widths, which is how the parser calls it (the format is looked up
    by the length, and [datetime_str_shape] below shows the digits): then
    every field takes its full width, a field out of range or a day that
    the month does not have raises [ValueError], and the fields left out
    default to 1900-01-01 00:00:00.  Other inputs do not reach it from this
    module and are reported as [ValueError]. *)
Definition strptime (s : string) (fmt : format) : res datetime :=
  match read_fields fmt s (mk_datetime 1900 1 1 0 0 0) with
  | Some t => if valid t then Ok t else Raise ValueError
  | None => Raise ValueError
  end.

End Datetime.

(** ** The layer interface of the host application *)

Inductive LayerType : Type :=
| VectorLayer | RasterLayer | PluginLayer | MeshLayer
| VectorTileLayer | AnnotationLayer | PointCloudLayer | GroupLayer.

Definition LayerType_eqb (a b : LayerType) : bool :=
  match a, b with
  | VectorLayer, VectorLayer | RasterLayer, RasterLayer
  | PluginLayer, PluginLayer | MeshLayer, MeshLayer
  | VectorTileLayer, VectorTileLayer | AnnotationLayer, AnnotationLayer
  | PointCloudLayer, PointCloudLayer | GroupLayer, GroupLayer => true
  | _, _ => false
  end.

(** What the module reads of a layer: [isValid()], [type()],
    [geometryType()] and the names of [fields()], in field order. *)
Record Layer : Type := mk_layer {
  isValid : bool;
  type : LayerType;
  geometryType : Z;
  fields : list string
}.

(** ** The module *)

Import Re.

Definition span_red : string :=
  "<span style=" +:+ Str.dq +:+ "color:red;" +:+ Str.dq +:+ ">".

Definition msg_invalid_layer : string :=
  span_red +:+ "Invalid Layer: Please select a valid vector layer.</span>".

Definition msg_not_vector : string :=
  span_red +:+
  "This is not a vector layer: Please select a valid vector layer.</span>".

Definition msg_geometry : string :=
  span_red +:+
  "Invalid Layer: Please select a valid point or polygon layer.</span>".

Definition msg_velocity : string :=
  span_red +:+
  "Invalid Layer: Please select a vector layer with valid velocity field.</span>".

Definition msg_timeseries : string :=
  span_red +:+
  "Invalid Layer: Please select a vector or raster layer with valid timeseries data.".

(** [x in [0, 2]] *)
Definition in_0_2 (x : Z) : bool := (x =? 0)%Z || (x =? 2)%Z.

(** [checkVectorLayer(layer)]; [None] is Python's [None]. *)
Definition checkVectorLayer (layer : option Layer) : bool * string :=
  match layer with
  | None => (false, msg_invalid_layer)
  | Some l =>
      if negb (isValid l) then (false, msg_invalid_layer)
      else if negb (LayerType_eqb (type l) VectorLayer)
      then (false, msg_not_vector)
      else if negb (in_0_2 (geometryType l)) then (false, msg_geometry)
      else (true, EmptyString)
  end.

(** The source text of the velocity pattern. *)
Definition rgx_velocity_src : string :=
  "(.*)(vel|deformation.?rate|mean.?deformation)(.*)".

(** The velocity pattern, group by group. *)
Definition rgx_velocity : regex :=
  cat [ Group 1 StarAny;
        Group 2 (Alt (word "vel")
                (Alt (cat [word "deformation"; Opt Any; word "rate"])
                     (cat [word "mean"; Opt Any; word "deformation"])));
        Group 3 StarAny ].

Definition keys_uncertainty : list string := ["err"; "sigma"; "std"].

Definition velocity_field_name_options : list string :=
  ["velocity"; "VEL"; "mean_velocity"; "deformation rate"].

(** The first loop of [getVectorVelocityFieldName]: the names that match
    the pattern and hold no uncertainty keyword, in field order. *)
Fixpoint velocity_matches (names : list string) : list string :=
  match names with
  | [] => []
  | name :: rest =>
      match re_match true rgx_velocity name with
      | None => velocity_matches rest                      (* continue *)
      | Some _ =>
          if Str.any_in keys_uncertainty name
          then velocity_matches rest                       (* continue *)
          else name :: velocity_matches rest               (* append *)
      end
  end.

(** The inner loop [for match in matches]: [Some match] when it leaves by
    [break], [None] when it runs to its end (and its [else] runs). *)
Fixpoint inner_loop (velocity_field_name : string) (matches : list string)
  : option string :=
  match matches with
  | [] => None
  | m :: rest =>
      if Str.contains velocity_field_name m then Some m
      else inner_loop velocity_field_name rest
  end.

(** The outer loop [for velocity_field_name in options]: when the inner
    loop breaks, [field_name] is set and the outer loop goes on to the next
    option; when the inner loop runs to its end, its [else] breaks the
    outer loop. *)
Fixpoint outer_loop (options : list string) (matches : list string)
    (field_name : string) : string :=
  match options with
  | [] => field_name
  | o :: rest =>
      match inner_loop o matches with
      | Some m => outer_loop rest matches m
      | None => field_name
      end
  end.

(** [getVectorVelocityFieldName(layer)]; the field name [None] is [None]. *)
Definition getVectorVelocityFieldName (layer : Layer)
  : option string * string :=
  let matches := velocity_matches (fields layer) in
  let field_name :=
    match matches with
    | [] => None
    | [m] => Some m
    | m0 :: _ :: _ =>
        Some (outer_loop velocity_field_name_options matches m0)
    end in
  match field_name with
  | None => (None, msg_velocity)
  | Some f => (Some f, EmptyString)
  end.

Definition chr (s : string) : atom :=
  match s with
  | String c _ => Chr c
  | EmptyString => Chr zero
  end.

(** The source text of the date pattern. *)
Definition rgx_dt_src : string :=
  "(.*)((19|20)\d{2}[\s\-\._]?[01]\d[\s\-\.]?[0123]\d)T?([012]\d[:\.]?[0-5]\d[0-5]?\d?)?(.*)".

(** The date pattern, group by group: 1 the text before, 2 the date (3 the
    century inside it), 4 the time, 5 the text after. *)
Definition rgx_dt : regex :=
  cat [ Group 1 StarAny;
        Group 2 (cat [ Group 3 (Alt (word "19") (word "20"));
                       One Digit; One Digit;
                       Opt (Set_ [Space; chr "-"; chr "."; chr "_"]);
                       Set_ [chr "0"; chr "1"]; One Digit;
                       Opt (Set_ [Space; chr "-"; chr "."]);
                       Set_ [chr "0"; chr "1"; chr "2"; chr "3"]; One Digit ]);
        Opt (One (chr "T"));
        Opt (Group 4 (cat [ Set_ [chr "0"; chr "1"; chr "2"]; One Digit;
                            Opt (Set_ [chr ":"; chr "."]);
                            Set_ [Rng "0" "5"]; One Digit;
                            Opt (Set_ [Rng "0" "5"]);
                            Opt (One Digit) ]));
        Group 5 StarAny ].

(** The inner test of [checkVectorLayerTimeseries]'s loop: does some field
    name match?  [true] is the [break], [false] the loop's [else]. *)
Fixpoint timeseries_loop (names : list string) : bool :=
  match names with
  | [] => false
  | name :: rest =>
      match re_match true rgx_dt name with
      | Some _ => true
      | None => timeseries_loop rest
      end
  end.

(** [checkVectorLayerTimeseries(layer)].  The validator rejects [None], so
    the loop over the fields is only reached with a layer. *)
Definition checkVectorLayerTimeseries (layer : option Layer)
  : bool * string :=
  let '(status, message) := checkVectorLayer layer in
  if negb status then (status, message)
  else
    match layer with
    | None => (status, message)
    | Some l =>
        if timeseries_loop (fields l) then (true, message)
        else (false, msg_timeseries)
    end.

(** [getVectorFields(layer)] *)
Definition getVectorFields (layer : Layer) : list string := fields layer.

(** ** The date/value attribute parser *)

(** The six keys of [d_date_value]. *)
Definition bucket_keys : list string :=
  ["los"; "h"; "v"; "los_sigma"; "h_sigma"; "v_sigma"].

(** [{8: '%Y%m%d', 12: '%Y%m%d%H%M', 14: '%Y%m%d%H%M%S'}] *)
Definition d_dt_fmt : gmap nat Datetime.format :=
  let Y := Datetime.dY in let m := Datetime.dm in let d := Datetime.dd in
  let H := Datetime.dH in let M := Datetime.dM in let S_ := Datetime.dS in
  <[ 8 := [Y; m; d] ]>
    (<[ 12 := [Y; m; d; H; M] ]>
       (<[ 14 := [Y; m; d; H; M; S_] ]> ∅)).

(** The set of [re.sub(r'[\s:\.\-_]?', '', ...)]. *)
Definition separators : list atom :=
  [Space; chr ":"; chr "."; chr "-"; chr "_"].

(** [d[k]] on a dictionary: [KeyError] when the key is missing. *)
Definition getitem {K V : Type} `{Countable K} (d : gmap K V) (k : K)
  : res V :=
  match d !! k with
  | Some v => Ok v
  | None => Raise KeyError
  end.

Section Parser.

(** Floating-point numbers are kept abstract: [F] with its not-a-number
    [nan], and [literal_value], the number [float] gives for a text it
    accepts. *)
Variable F : Type.
Variable nan : F.
Variable literal_value : string -> F.

(** An attribute value: a number, a string or the null of the host. *)
Inductive pyvalue : Type :=
| PyFloat (x : F)
| PyStr (s : string)
| PyNull.

(** [float(value)], [None] when it raises. *)
Definition float_ (value : pyvalue) : option F :=
  match value with
  | PyFloat x => Some x
  | PyStr s =>
      if Str.float_literal s then Some (literal_value s) else None
  | PyNull => None
  end.

Local Abbreviation buckets := (gmap string (list (Datetime.datetime * F))).

(** [{'los': [], 'h': [], 'v': [], 'los_sigma': [], 'h_sigma': [],
      'v_sigma': []}] *)
Definition d_date_value_init : buckets :=
  list_to_map (map (fun k => (k, [])) bucket_keys).

(** [d[k].append(x)] *)
Definition append_to (d : buckets) (k : string)
    (x : Datetime.datetime * F) : res buckets :=
  let? l := getitem d k in Ok (<[ k := (l ++ [x])%list ]> d).

(** [try: value = float(value)] and [except: value = np.nan]. *)
Definition float_or_nan (value : pyvalue) : F :=
  match float_ value with
  | Some x => x
  | None => nan
  end.

(** The body of the loop over [attributes.items()]. *)
Definition loop_body (d_date_value : buckets) (item : string * pyvalue)
  : res buckets :=
  let '(key, value) := item in
  match re_match false rgx_dt (Str.lower key) with
  | None => Ok d_date_value                                 (* continue *)
  | Some p =>
      let value := float_or_nan value in
      let s_before := default EmptyString (group p 1) in
      let s_date := default EmptyString (group p 2) in
      let s_time := default EmptyString (group p 4) in
      let s_after := default EmptyString (group p 5) in
      let datetime_str := sub_optset_empty separators (s_date +:+ s_time) in
      let? fmt := getitem d_dt_fmt (String.length datetime_str) in
      let? date_obj := Datetime.strptime datetime_str fmt in
      let s_tag := sub_optset_empty separators (s_before +:+ s_after) in
      let key_add :=
        if Str.any_in keys_uncertainty s_tag then "_sigma"
        else EmptyString in
      if Str.is_empty s_tag || Str.contains "los" s_tag
      then append_to d_date_value ("los" +:+ key_add) (date_obj, value)
      else if Str.contains "h" s_tag
      then append_to d_date_value ("h" +:+ key_add) (date_obj, value)
      else if Str.contains "v" s_tag
      then append_to d_date_value ("v" +:+ key_add) (date_obj, value)
      else append_to d_date_value ("los" +:+ key_add) (date_obj, value)
  end.

(** [for key, value in items: ...], stopping at the first exception. *)
Fixpoint loop (items : list (string * pyvalue)) (d_date_value : buckets)
  : res buckets :=
  match items with
  | [] => Ok d_date_value
  | item :: rest =>
      let? d := loop_body d_date_value item in loop rest d
  end.

(** [extractDateValueAttributes(attributes)], on [attributes.items()] in
    iteration order.  The closing conversion of each bucket to an array
    keeps its pairs and their order; a bucket stays a list here. *)
Definition extractDateValueAttributes (attributes : list (string * pyvalue))
  : res buckets :=
  loop attributes d_date_value_init.

End Parser.

Arguments PyFloat {F} x.
Arguments PyStr {F} s.
Arguments PyNull {F}.

(** ** Notions the statements use *)

(** A layer the validator accepts: a valid vector layer of points or polygons. *)
Definition usable (layer : option Layer) : Prop :=
  exists l, layer = Some l /\ isValid l = true /\ type l = VectorLayer /\
            (geometryType l = 0 \/ geometryType l = 2)%Z.

(** A layer the validator rejects. *)
Definition rejected (layer : option Layer) : Prop :=
  layer = None \/
  exists l, layer = Some l /\
    (isValid l = false \/ type l <> VectorLayer \/
     (geometryType l <> 0 /\ geometryType l <> 2)%Z).

(** The first check of the validator that fails, with its message. *)
Inductive failure : option Layer -> string -> Prop :=
| fail_null : failure None msg_invalid_layer
| fail_invalid l :
    isValid l = false -> failure (Some l) msg_invalid_layer
| fail_not_vector l :
    isValid l = true -> type l <> VectorLayer ->
    failure (Some l) msg_not_vector
| fail_geometry l :
    isValid l = true -> type l = VectorLayer ->
    geometryType l <> 0%Z -> geometryType l <> 2%Z ->
    failure (Some l) msg_geometry.

(** [k] occurs in [s] as a substring. *)
Definition occurs_in (k s : string) : Prop := exists a b, s = a +:+ k +:+ b.

Definition date_field (name : string) : Prop :=
  exists p, re_match true rgx_dt name = Some p.
Definition velocity_name (name : string) : Prop :=
  exists p, re_match true rgx_velocity name = Some p.
Definition uncertainty_name (name : string) : Prop :=
  exists k, In k keys_uncertainty /\ occurs_in k name.

(** The tie-break as the specification words it: the first preference that
    occurs in some candidate selects the first candidate holding it; with
    no such preference, the first candidate. *)
Fixpoint spec_preferred (options matches : list string) : option string :=
  match options with
  | [] => None
  | o :: rest =>
      match inner_loop o matches with
      | Some m => Some m
      | None => spec_preferred rest matches
      end
  end.

Definition spec_tie_break (matches : list string) : option string :=
  match matches with
  | [] => None
  | m0 :: _ =>
      Some (default m0 (spec_preferred velocity_field_name_options matches))
  end.

(** The match of a key of the mapping, as line 118 computes it. *)
Definition dt_match (key : string) : option match_obj :=
  re_match false rgx_dt (Str.lower key).

Definition dt_key (key : string) : Prop := exists p, dt_match key = Some p.

Definition dt_keyb (key : string) : bool :=
  match dt_match key with Some _ => true | None => false end.

(** The outcome of one item of the mapping on which the loop body raises
    nothing: the key does not match and the buckets stay, or the key
    matches and one pair is appended to one of the six buckets. *)
Inductive step_effect {A : Type} (d d' : gmap string (list A))
    (key : string) : Prop :=
| effect_skip :
    dt_match key = None -> d' = d -> step_effect d d' key
| effect_add (b : string) (l : list A) (pair : A) :
    dt_key key -> In b bucket_keys -> d !! b = Some l ->
    d' = <[ b := (l ++ [pair])%list ]> d -> step_effect d d' key.

(** The tag of a match: the text before and after the date, separators
    stripped (line 137). *)
Definition tag_of (p : match_obj) : string :=
  sub_optset_empty separators
    (default EmptyString (group p 1) +:+ default EmptyString (group p 5)).

(** The digits of a match: its date and time, separators stripped
    (line 135). *)
Definition datetime_str_of (p : match_obj) : string :=
  sub_optset_empty separators
    (default EmptyString (group p 2) +:+ default EmptyString (group p 4)).

(** The timestamp of a match (line 136). *)
Definition timestamp_of (p : match_obj) : res Datetime.datetime :=
  let? fmt := getitem d_dt_fmt (String.length (datetime_str_of p)) in
  Datetime.strptime (datetime_str_of p) fmt.

Definition uncertainty_tag (tag : string) : Prop :=
  occurs_in "err" tag \/ occurs_in "sigma" tag \/ occurs_in "std" tag.

(** The bucket variant of a tag. *)
Definition variant (tag suffix : string) : Prop :=
  (uncertainty_tag tag /\ suffix = "_sigma") \/
  (~ uncertainty_tag tag /\ suffix = EmptyString).

(** The component bucket of a tag. *)
Definition component (tag base : string) : Prop :=
  let los := tag = EmptyString \/ occurs_in "los" tag in
  (los /\ base = "los") \/
  (~ los /\ occurs_in "h" tag /\ base = "h") \/
  (~ los /\ ~ occurs_in "h" tag /\ occurs_in "v" tag /\ base = "v") \/
  (~ los /\ ~ occurs_in "h" tag /\ ~ occurs_in "v" tag /\ base = "los").

(** The number of pairs in the six buckets. *)
Definition entries {A : Type} (d : gmap string (list A)) : nat :=
  sum_list (map (fun k => length (default [] (d !! k))) bucket_keys).

(** The number of keys of a mapping that match the date pattern. *)
Definition matching_keys {V : Type} (attributes : list (string * V)) : nat :=
  length (List.filter (fun item => dt_keyb item.1) attributes).

(** The words a pattern matches, whatever the groups. *)
Fixpoint lang (ic : bool) (r : regex) (w : string) : Prop :=
  match r with
  | Eps => w = EmptyString
  | Any => exists c, w = String c EmptyString /\ any_ok c = true
  | One a => exists c, w = String c EmptyString /\ atom_ok ic a c = true
  | Set_ l =>
      exists c, w = String c EmptyString /\
                existsb (fun a => atom_ok ic a c) l = true
  | Seq r1 r2 =>
      exists w1 w2, w = w1 +:+ w2 /\ lang ic r1 w1 /\ lang ic r2 w2
  | Alt r1 r2 => lang ic r1 w \/ lang ic r2 w
  | Opt r' => lang ic r' w \/ w = EmptyString
  | StarAny => True
  | Group _ r' => lang ic r' w
  end.

(** Every capturing group of [r] only captures words satisfying [P]. *)
Fixpoint groups_sat (ic : bool) (P : nat -> string -> Prop) (r : regex)
  : Prop :=
  match r with
  | Seq r1 r2 | Alt r1 r2 => groups_sat ic P r1 /\ groups_sat ic P r2
  | Opt r' => groups_sat ic P r'
  | Group i r' => (forall w, lang ic r' w -> P i w) /\ groups_sat ic P r'
  | _ => True
  end.

Definition caps_sat (P : nat -> string -> Prop) (g : caps) : Prop :=
  forall i w, lookup_group i g = Some w -> P i w.

(** The groups every match of [r] sets. *)
Fixpoint sets (r : regex) : list nat :=
  match r with
  | Seq r1 r2 => sets r1 ++ sets r2
  | Group i r' => i :: sets r'
  | _ => []
  end.

Definition is_sep (c : ascii) : bool :=
  existsb (fun a => atom_ok false a c) separators.

Fixpoint all_digits (s : string) : bool :=
  match s with
  | EmptyString => true
  | String c s' => Str.is_digit c && all_digits s'
  end.

(** [w] is made of [n] digits and any number of separators. *)
Definition digits_and_seps (n : nat) (w : string) : Prop :=
  all_digits (sub_optset_empty separators w) = true /\
  String.length (sub_optset_empty separators w) = n.

Definition atom_digit (a : atom) : bool :=
  match a with
  | Chr c => Str.is_digit c
  | Rng lo hi => Str.is_digit lo && Str.is_digit hi
  | Digit => true
  | Space => false
  end.

Definition atom_sep (a : atom) : bool :=
  match a with
  | Chr c => is_sep c
  | Space => true
  | _ => false
  end.

Definition sums (l1 l2 : list nat) : list nat :=
  flat_map (fun a => map (fun b => a + b) l2) l1.

(** The numbers of digits a word of [r] can have, for a pattern made of
    digits and separators only. *)
Fixpoint counts (r : regex) : option (list nat) :=
  match r with
  | Eps => Some [0]
  | One a =>
      if atom_digit a then Some [1]
      else if atom_sep a then Some [0] else None
  | Set_ l =>
      if forallb atom_digit l then Some [1]
      else if forallb atom_sep l then Some [0] else None
  | Seq r1 r2 =>
      match counts r1, counts r2 with
      | Some l1, Some l2 => Some (sums l1 l2)
      | _, _ => None
      end
  | Alt r1 r2 =>
      match counts r1, counts r2 with
      | Some l1, Some l2 => Some (l1 ++ l2)%list
      | _, _ => None
      end
  | Opt r' =>
      match counts r' with Some l => Some (l ++ [0])%list | None => None end
  | Group _ r' => counts r'
  | Any | StarAny => None
  end.

(** What the date group 2 and the time group 4 capture. *)
Definition dt_groups (i : nat) (w : string) : Prop :=
  match i with
  | 2 => digits_and_seps 8 w
  | 4 => exists n, (4 <= n <= 6) /\ digits_and_seps n w
  | _ => True
  end.

(** ** Notions for the further properties *)

(** [s] holds no newline: what [.*] can take. *)
Fixpoint no_newline (s : string) : bool :=
  match s with
  | EmptyString => true
  | String c s' => any_ok c && no_newline s'
  end.

(** The words a pattern matches, exactly: [.*] takes the words without a
    newline. *)
Fixpoint words (ic : bool) (r : regex) (w : string) : Prop :=
  match r with
  | Eps => w = EmptyString
  | Any => exists c, w = String c EmptyString /\ any_ok c = true
  | One a => exists c, w = String c EmptyString /\ atom_ok ic a c = true
  | Set_ l =>
      exists c, w = String c EmptyString /\
                existsb (fun a => atom_ok ic a c) l = true
  | Seq r1 r2 =>
      exists w1 w2, w = w1 +:+ w2 /\ words ic r1 w1 /\ words ic r2 w2
  | Alt r1 r2 => words ic r1 w \/ words ic r2 w
  | Opt r' => words ic r' w \/ w = EmptyString
  | StarAny => no_newline w = true
  | Group _ r' => words ic r' w
  end.

(** The numbers of the groups of a pattern. *)
Fixpoint groups_of (r : regex) : list nat :=
  match r with
  | Seq r1 r2 | Alt r1 r2 => groups_of r1 ++ groups_of r2
  | Opt r' => groups_of r'
  | Group i r' => i :: groups_of r'
  | _ => []
  end.

(** An atom that takes a character under IGNORECASE exactly when it takes
    its lower-case form without: a literal that is its own lower case, a
    range below the letters, a category. *)
Definition caseless_atom (a : atom) : bool :=
  match a with
  | Chr x => Ascii.eqb (Str.char_lower x) x
  | Rng lo hi => (Str.code hi <? 65)%N
  | Digit | Space => true
  end.

Fixpoint caseless (r : regex) : bool :=
  match r with
  | Eps | Any | StarAny => true
  | One a => caseless_atom a
  | Set_ l => forallb caseless_atom l
  | Seq r1 r2 | Alt r1 r2 => caseless r1 && caseless r2
  | Opt r' | Group _ r' => caseless r'
  end.

(** The date of the date pattern: what its group 2 holds. *)
Definition rgx_date : regex :=
  cat [ Group 3 (Alt (word "19") (word "20"));
        One Digit; One Digit;
        Opt (Set_ [Space; chr "-"; chr "."; chr "_"]);
        Set_ [chr "0"; chr "1"]; One Digit;
        Opt (Set_ [Space; chr "-"; chr "."]);
        Set_ [chr "0"; chr "1"; chr "2"; chr "3"]; One Digit ].

(** The time of the date pattern: what its group 4 holds. *)
Definition rgx_time : regex :=
  cat [ Set_ [chr "0"; chr "1"; chr "2"]; One Digit;
        Opt (Set_ [chr ":"; chr "."]);
        Set_ [Rng "0" "5"]; One Digit;
        Opt (Set_ [Rng "0" "5"]);
        Opt (One Digit) ].


(** The number of decimal digits in a string. *)
Fixpoint ndigits (s : string) : nat :=
  match s with
  | EmptyString => 0
  | String c s' => (if Str.is_digit c then 1 else 0) + ndigits s'
  end.

(** At most one separator. *)
Definition sep_or_empty (s : string) : Prop :=
  s = EmptyString \/ exists c, s = String c EmptyString /\ is_sep c = true.

(** The decimal digit of a number below ten. *)
Definition digit_char (n : nat) : ascii := ascii_of_nat (48 + n).

(** A number below a hundred in two digits, as [%m] or [%d] print it. *)
Definition two_digits (n : nat) : string :=
  String (digit_char (n / 10)) (String (digit_char (n mod 10)) EmptyString).

(** A date as [strftime('%Y%m%d')] prints it, for a year of four digits. *)
Definition date_key (y m d : nat) : string :=
  two_digits (y / 100) +:+ two_digits (y mod 100) +:+
  two_digits m +:+ two_digits d.

(** The pairs of a bucket, none for a missing key. *)
Definition bucket {A : Type} (d : gmap string (list A)) (k : string)
  : list A :=
  default [] (d !! k).

(** The bucket of a match: its component and its variant. *)
Definition bucket_of (p : match_obj) (k : string) : Prop :=
  exists base suffix,
    component (tag_of p) base /\ variant (tag_of p) suffix /\
    k = base +:+ suffix.

(** Two results, bucket by bucket: the pairs of the first, then those of
    the second. *)
Definition merge {A : Type} (d1 d2 : gmap string (list A))
  : gmap string (list A) :=
  union_with (fun l1 l2 => Some (l1 ++ l2)%list) d1 d2.




(** [m] is the first of [matches] in which [o] occurs. *)
Definition first_holding (o : string) (matches : list string) (m : string)
  : Prop :=
  exists pre post,
    matches = (pre ++ m :: post)%list /\ occurs_in o m /\
    forall x, In x pre -> ~ occurs_in o x.

(** ** Features *)

(** [d[k] = v] on the items of a dictionary, kept in insertion order: a
    key that is there keeps its place and takes the value, a new key goes
    to the end. *)
Fixpoint dict_setitem {V : Type} (items : list (string * V)) (k : string)
    (v : V) : list (string * V) :=
  match items with
  | [] => [(k, v)]
  | (k', v') :: rest =>
      if String.eqb k' k then (k', v) :: rest
      else (k', v') :: dict_setitem rest k v
  end.

Section Features.

Variable F : Type.

(** A feature of the host: the names of its fields in order, and
    [feature[name]] for the name of one of its fields. *)
Record QgsFeature : Type := {
  feature_fields : list string;
  feature_getitem : string -> pyvalue F
}.

(** [getFeatureAttributes(feature)]: the items of the dictionary the
    comprehension builds, in insertion order. *)
Definition getFeatureAttributes (feature : QgsFeature)
  : list (string * pyvalue F) :=
  fold_left
    (fun d name => dict_setitem d name (feature_getitem feature name))
    (feature_fields feature) [].

End Features.

Arguments feature_fields {F} _.
Arguments feature_getitem {F} _ _.
Arguments getFeatureAttributes {F} feature.

(** * Properties *)

(** ** The layer validator *)

Lemma LayerType_eqb_eq a b : LayerType_eqb a b = true <-> a = b.
Proof. split; [destruct a, b; simpl; congruence | intros ->; destruct b; reflexivity]. Qed.

Lemma in_0_2_spec x : in_0_2 x = true <-> (x = 0 \/ x = 2)%Z.
Proof. unfold in_0_2. rewrite orb_true_iff, !Z.eqb_eq. tauto. Qed.

Lemma rejected_not_usable layer : rejected layer -> ~ usable layer.
Proof.
  intros [->|(l & -> & H)] (l' & E & Hv & Ht & Hg); [discriminate|].
  injection E as <-. destruct H as [H|[H|H]]; [congruence|congruence|lia].
Qed.

Lemma failure_rejected layer m : failure layer m -> rejected layer.
Proof.
  intros [|l H|l _ H|l _ _ H0 H2]; [left; reflexivity| | |];
    right; exists l; (split; [reflexivity|]); auto.
Qed.

Lemma failure_unique layer m m' : failure layer m -> failure layer m' -> m = m'.
Proof.
  intros H H'. destruct H; inversion H'; subst; try reflexivity; congruence.
Qed.

Lemma failure_nonempty layer m : failure layer m -> m <> EmptyString.
Proof. intros []; discriminate. Qed.

Lemma checkVectorLayer_cases (layer : option Layer) :
  (usable layer /\ checkVectorLayer layer = (true, EmptyString)) \/
  (exists m, failure layer m /\ checkVectorLayer layer = (false, m)).
Proof.
  destruct layer as [l|]; simpl;
    [|right; eexists; split; [constructor | reflexivity]].
  destruct (isValid l) eqn:Hv; simpl;
    [|right; eexists; split; [constructor; exact Hv | reflexivity]].
  destruct (LayerType_eqb (type l) VectorLayer) eqn:Ht; simpl.
  2:{ right. eexists. split; [|reflexivity]. apply fail_not_vector; [exact Hv|].
      intros E. apply LayerType_eqb_eq in E. congruence. }
  apply LayerType_eqb_eq in Ht.
  destruct (in_0_2 (geometryType l)) eqn:Hg; simpl.
  - apply in_0_2_spec in Hg. left. split; [exists l; auto | reflexivity].
  - assert (~ (geometryType l = 0 \/ geometryType l = 2)%Z)
      by (intros E; apply in_0_2_spec in E; congruence).
    right. eexists. split; [|reflexivity]. apply fail_geometry; auto; lia.
Qed.

(** C5.  The validator answers [(false, m)] exactly for a rejected layer
    (null, invalid, not a vector layer, or of a geometry type other than
    point 0 and polygon 2), and then [m] is the fixed non-empty message of
    the first check that fails; it answers [(true, EmptyString)] exactly for
    a valid point or polygon vector layer; and every layer is of one of the
    two kinds. *)
Theorem checkVectorLayer_exact (layer : option Layer) :
  ((exists m, checkVectorLayer layer = (false, m)) <-> rejected layer) /\
  (checkVectorLayer layer = (true, EmptyString) <-> usable layer) /\
  (forall m, checkVectorLayer layer = (false, m) <-> failure layer m) /\
  (forall m, failure layer m -> m <> EmptyString) /\
  (rejected layer \/ usable layer).
Proof.
  destruct (checkVectorLayer_cases layer) as [[Hu E]|(m & Hf & E)]; rewrite E.
  - split; [|split; [|split; [|split]]].
    + split; [intros [m H]; discriminate H|].
      intros Hr. destruct (rejected_not_usable _ Hr Hu).
    + split; [intros _; exact Hu | reflexivity].
    + intros m. split; [intros H; discriminate H|].
      intros Hf. destruct (rejected_not_usable _ (failure_rejected _ _ Hf) Hu).
    + apply failure_nonempty.
    + right. exact Hu.
  - pose proof (failure_rejected _ _ Hf) as Hr.
    split; [|split; [|split; [|split]]].
    + split; [intros _; exact Hr | intros _; exists m; reflexivity].
    + split; [intros H; discriminate H|].
      intros Hu. destruct (rejected_not_usable _ Hr Hu).
    + intros m'. split.
      * intros H. injection H as <-. exact Hf.
      * intros Hf'. rewrite (failure_unique _ _ _ Hf Hf'). reflexivity.
    + apply failure_nonempty.
    + left. exact Hr.
Qed.

(** ** Substrings *)

Lemma startswith_iff p s : Str.startswith p s = true <-> exists b, s = p +:+ b.
Proof.
  revert s. induction p as [|a p IH]; intros s; simpl.
  - split; [intros _; exists s; reflexivity | reflexivity].
  - destruct s as [|c s]; simpl.
    + split; [discriminate | intros [b H]; discriminate].
    + rewrite andb_true_iff, Ascii.eqb_eq, IH. split.
      * intros [-> [b ->]]. exists b. reflexivity.
      * intros [b [= -> ->]]. split; [reflexivity | exists b; reflexivity].
Qed.

Lemma contains_iff k s : Str.contains k s = true <-> occurs_in k s.
Proof.
  unfold occurs_in. induction s as [|c s IH].
  - simpl. rewrite orb_false_r, startswith_iff. split.
    + intros [b H]. exists EmptyString, b. exact H.
    + intros (a & b & H). destruct a; simpl in H; [exists b; exact H | discriminate].
  - simpl. rewrite orb_true_iff, startswith_iff, IH. split.
    + intros [[b H]|(a & b & H)].
      * exists EmptyString, b. exact H.
      * exists (String c a), b. simpl. rewrite H. reflexivity.
    + intros (a & b & H). destruct a as [|c' a]; simpl in H.
      * left. exists b. exact H.
      * right. injection H as -> ->. exists a, b. reflexivity.
Qed.

Lemma any_in_iff keys s :
  Str.any_in keys s = true <-> exists k, In k keys /\ occurs_in k s.
Proof.
  unfold Str.any_in. rewrite existsb_exists.
  split; intros (k & Hk & H); exists k; (split; [exact Hk|]); apply contains_iff; exact H.
Qed.

(** ** The velocity field locator *)

Lemma velocity_matches_iff names m :
  In m (velocity_matches names) <->
  In m names /\ velocity_name m /\ ~ uncertainty_name m.
Proof.
  unfold velocity_name, uncertainty_name.
  induction names as [|n names IH]; cbn [velocity_matches In].
  - tauto.
  - destruct (re_match true rgx_velocity n) as [p|] eqn:E.
    + destruct (Str.any_in keys_uncertainty n) eqn:U.
      * rewrite IH. split; [tauto|]. intros ([<-|H] & Hv & Hu); [|tauto].
        destruct Hu. apply any_in_iff. exact U.
      * cbn [In]. rewrite IH. split.
        -- intros [<-|H]; [|tauto]. split; [auto|]. split; [eauto|].
           intros Hu. apply any_in_iff in Hu. congruence.
        -- tauto.
    + rewrite IH. split; [tauto|]. intros ([<-|H] & Hv & Hu); [|tauto].
      destruct Hv as [p Hp]. congruence.
Qed.

Lemma inner_loop_In o matches m : inner_loop o matches = Some m -> In m matches.
Proof.
  induction matches as [|x matches IH]; simpl; [discriminate|].
  destruct (Str.contains o x); [intros [= ->]; auto | auto].
Qed.

Lemma outer_loop_In options matches f :
  In f matches -> In (outer_loop options matches f) matches.
Proof.
  revert f. induction options as [|o options IH]; intros f Hf; simpl; [exact Hf|].
  destruct (inner_loop o matches) as [m|] eqn:E; [|exact Hf].
  apply IH. eapply inner_loop_In. exact E.
Qed.

Lemma velocity_result_cases layer :
  (velocity_matches (fields layer) = [] /\
   getVectorVelocityFieldName layer = (None, msg_velocity)) \/
  (exists f, In f (velocity_matches (fields layer)) /\
   getVectorVelocityFieldName layer = (Some f, EmptyString)).
Proof.
  unfold getVectorVelocityFieldName.
  destruct (velocity_matches (fields layer)) as [|m0 [|m1 rest]] eqn:E.
  - left. auto.
  - right. exists m0. simpl. auto.
  - right. eexists. split; [|reflexivity]. apply outer_loop_In. simpl. auto.
Qed.

(** C8.  A field name the locator returns comes with an empty message, is
    a field of the layer matching the velocity pattern and holds none of
    the uncertainty keywords; the locator returns no field name exactly
    when every field matching the pattern is an uncertainty field (in
    particular when none matches), and then the message is the fixed
    non-empty one; on the fields VEL_mean, VEL_err it returns VEL_mean. *)
Theorem velocity_field_excludes_uncertainty (layer : Layer) :
  (forall f m, getVectorVelocityFieldName layer = (Some f, m) ->
     m = EmptyString /\ In f (fields layer) /\ velocity_name f /\
     forall k, In k keys_uncertainty -> ~ occurs_in k f) /\
  (forall m, getVectorVelocityFieldName layer = (None, m) ->
     m = msg_velocity /\ m <> EmptyString) /\
  ((exists m, getVectorVelocityFieldName layer = (None, m)) <->
   (forall name, In name (fields layer) -> velocity_name name ->
      uncertainty_name name)) /\
  (forall v t g,
     getVectorVelocityFieldName (mk_layer v t g ["VEL_mean"; "VEL_err"]) =
     (Some "VEL_mean", EmptyString)).
Proof.
  split; [|split; [|split]].
  - intros f m H.
    destruct (velocity_result_cases layer) as [[_ E]|(f' & Hin & E)];
      rewrite E in H; [discriminate|]. injection H as <- <-.
    apply velocity_matches_iff in Hin. destruct Hin as (Hin & Hv & Hu).
    split; [reflexivity|]. split; [exact Hin|]. split; [exact Hv|].
    intros k Hk Ho. apply Hu. exists k. auto.
  - intros m H.
    destruct (velocity_result_cases layer) as [[_ E]|(f' & Hin & E)];
      rewrite E in H; [|discriminate]. injection H as <-.
    split; [reflexivity | discriminate].
  - destruct (velocity_result_cases layer) as [[Hnil E]|(f' & Hin & E)]; rewrite E.
    + split; [|intros _; eexists; reflexivity].
      intros _ name Hin Hv.
      destruct (Str.any_in keys_uncertainty name) eqn:U.
      * apply any_in_iff. exact U.
      * exfalso. assert (H : In name (velocity_matches (fields layer))).
        { apply velocity_matches_iff. split; [exact Hin|]. split; [exact Hv|].
          intros Hu. apply any_in_iff in Hu. congruence. }
        rewrite Hnil in H. exact H.
    + split; [intros [m H]; discriminate|].
      intros H. apply velocity_matches_iff in Hin. destruct Hin as (Hin & Hv & Hu).
      destruct Hu. apply H; assumption.
  - intros v t g. vm_compute. reflexivity.
Qed.

(** C10.  The pattern match ignores case and the keyword exclusion does
    not: a layer whose only field is VEL_ERR keeps it as a candidate and
    gets it back as the velocity field, while the field VEL_err is
    excluded. *)
Theorem uncertainty_exclusion_is_case_sensitive :
  (forall v t g,
     velocity_matches (fields (mk_layer v t g ["VEL_ERR"])) = ["VEL_ERR"] /\
     getVectorVelocityFieldName (mk_layer v t g ["VEL_ERR"]) =
     (Some "VEL_ERR", EmptyString)) /\
  (forall v t g,
     getVectorVelocityFieldName (mk_layer v t g ["VEL_err"]) =
     (None, msg_velocity)) /\
  velocity_name "VEL_ERR" /\ velocity_name "VEL_err" /\
  ~ uncertainty_name "VEL_ERR" /\ uncertainty_name "VEL_err".
Proof.
  split; [|split; [|split; [|split; [|split]]]].
  - intros v t g. split; vm_compute; reflexivity.
  - intros v t g. vm_compute. reflexivity.
  - eexists. vm_compute. reflexivity.
  - eexists. vm_compute. reflexivity.
  - intros H. apply any_in_iff in H. vm_compute in H. discriminate.
  - apply any_in_iff. vm_compute. reflexivity.
Qed.

Lemma inner_loop_None o matches :
  inner_loop o matches = None <-> forall m, In m matches -> ~ occurs_in o m.
Proof.
  induction matches as [|x matches IH]; cbn [inner_loop In].
  - split; [intros _ m [] | reflexivity].
  - destruct (Str.contains o x) eqn:E.
    + split; [discriminate|]. intros H. exfalso.
      apply (H x); [left; reflexivity | apply contains_iff; exact E].
    + rewrite IH. split.
      * intros H m [<-|Hm]; [|apply H; exact Hm].
        intros Ho. apply contains_iff in Ho. congruence.
      * intros H m Hm. apply H. right. exact Hm.
Qed.

(** With two candidates or more, of which none holds the first preference
    (velocity), the locator returns the first candidate, whatever the later
    preferences occur in. *)
Lemma locator_stops_at_first_miss layer m0 m1 rest :
  velocity_matches (fields layer) = m0 :: m1 :: rest ->
  (forall m, In m (m0 :: m1 :: rest) -> ~ occurs_in "velocity" m) ->
  getVectorVelocityFieldName layer = (Some m0, EmptyString).
Proof.
  intros E H. unfold getVectorVelocityFieldName. rewrite E.
  apply inner_loop_None in H.
  unfold velocity_field_name_options. cbn [outer_loop]. rewrite H. reflexivity.
Qed.

(** C1.  The tie-break at two inputs.  On the candidates vel_x, VEL_y the
    first preference, velocity, occurs in neither, the outer loop stops
    there and the locator returns vel_x, although the preference VEL occurs
    in VEL_y; on velocity_a, VEL_b the loop goes on after velocity has
    selected velocity_a and returns VEL_b.  The tie-break as the
    specification words it selects VEL_y and velocity_a.  In general, with
    two candidates or more of which none holds velocity, the locator returns
    the first candidate. *)
Theorem tie_break_diverges :
  (forall v t g,
     velocity_matches (fields (mk_layer v t g ["vel_x"; "VEL_y"])) = ["vel_x"; "VEL_y"] /\
     getVectorVelocityFieldName (mk_layer v t g ["vel_x"; "VEL_y"]) =
       (Some "vel_x", EmptyString)) /\
  spec_tie_break ["vel_x"; "VEL_y"] = Some "VEL_y" /\
  (forall v t g,
     getVectorVelocityFieldName (mk_layer v t g ["velocity_a"; "VEL_b"]) =
       (Some "VEL_b", EmptyString)) /\
  spec_tie_break ["velocity_a"; "VEL_b"] = Some "velocity_a" /\
  (forall layer m0 m1 rest,
     velocity_matches (fields layer) = m0 :: m1 :: rest ->
     (forall m, In m (m0 :: m1 :: rest) -> ~ occurs_in "velocity" m) ->
     getVectorVelocityFieldName layer = (Some m0, EmptyString)).
Proof.
  split; [|split; [|split; [|split]]].
  - intros v t g. split; vm_compute; reflexivity.
  - vm_compute. reflexivity.
  - intros v t g. vm_compute. reflexivity.
  - vm_compute. reflexivity.
  - exact locator_stops_at_first_miss.
Qed.

(** ** The time-series check *)

Lemma timeseries_loop_iff names :
  timeseries_loop names = true <-> exists name, In name names /\ date_field name.
Proof.
  unfold date_field. induction names as [|n names IH]; cbn [timeseries_loop In].
  - split; [discriminate | intros (? & [] & _)].
  - destruct (re_match true rgx_dt n) as [p|] eqn:E.
    + split; [intros _; exists n; eauto | reflexivity].
    + rewrite IH. split.
      * intros (x & Hx & H). exists x. auto.
      * intros (x & [<-|Hx] & p & H); [congruence | exists x; eauto].
Qed.

Lemma checkVectorLayer_true layer m :
  checkVectorLayer layer = (true, m) ->
  m = EmptyString /\ exists l, layer = Some l.
Proof.
  destruct layer as [l|]; simpl; [|discriminate].
  destruct (isValid l); simpl; [|discriminate].
  destruct (LayerType_eqb _ _); simpl; [|discriminate].
  destruct (in_0_2 _); simpl; [|discriminate].
  intros [= <-]. eauto.
Qed.

(** C6.  The time-series check hands back the validator's [(false, m)]
    unchanged; when the validator accepts the layer it answers
    [(true, EmptyString)] exactly when some field name matches the date
    pattern, and [(false, msg_timeseries)], a fixed non-empty message,
    exactly when none does. *)
Theorem checkVectorLayerTimeseries_contract (layer : option Layer) :
  (forall m, checkVectorLayer layer = (false, m) ->
     checkVectorLayerTimeseries layer = (false, m)) /\
  (forall l m, layer = Some l -> checkVectorLayer layer = (true, m) ->
     (checkVectorLayerTimeseries layer = (true, EmptyString) <->
      exists name, In name (fields l) /\ date_field name) /\
     (checkVectorLayerTimeseries layer = (false, msg_timeseries) <->
      ~ exists name, In name (fields l) /\ date_field name)) /\
  msg_timeseries <> EmptyString.
Proof.
  split; [|split; [|discriminate]].
  - intros m E. unfold checkVectorLayerTimeseries. rewrite E. reflexivity.
  - intros l m -> E. unfold checkVectorLayerTimeseries. rewrite E.
    apply checkVectorLayer_true in E. destruct E as [-> _].
    cbn [negb]. rewrite <- timeseries_loop_iff.
    destruct (timeseries_loop (fields l)).
    + split; split; try reflexivity; try discriminate. intros H; destruct H; reflexivity.
    + split; split; try reflexivity; try discriminate.
Qed.

(** ** The matcher *)

Lemma in_one_char p s g o :
  In o (one_char p s g) ->
  exists c, s = String c o.1.2 /\ o.1.1 = String c EmptyString /\
            p c = true /\ o.2 = g.
Proof.
  destruct s as [|c s]; simpl; [tauto|].
  destruct (p c) eqn:E; simpl; [|tauto].
  intros [<-|[]]. exists c. auto.
Qed.

Lemma append_cons c (a b : string) : String c a +:+ b = String c (a +:+ b).
Proof. reflexivity. Qed.

Lemma in_star_any s g o :
  In o (star_any s g) -> s = o.1.1 +:+ o.1.2 /\ o.2 = g.
Proof.
  revert o. induction s as [|c s IH]; intros o; cbn [star_any].
  - intros [<-|[]]. auto.
  - destruct (any_ok c).
    + rewrite in_app_iff, in_map_iff. intros [(o' & <- & H)|[<-|[]]].
      * apply IH in H. destruct H as [H1 H2]. cbn [fst snd].
        rewrite append_cons, <- H1. auto.
      * auto.
    + intros [<-|[]]. auto.
Qed.

Lemma app_assoc_str (a b c : string) : (a +:+ b) +:+ c = a +:+ (b +:+ c).
Proof.
  induction a as [|x a IH]; [reflexivity|].
  rewrite !append_cons, IH. reflexivity.
Qed.

(** Soundness: a success splits the input and its text is a word of the
    pattern. *)
Lemma run_lang ic r : forall s g o,
  In o (run ic r s g) -> s = o.1.1 +:+ o.1.2 /\ lang ic r o.1.1.
Proof.
  induction r as [| | a | l | r1 IH1 r2 IH2 | r1 IH1 r2 IH2 | r IH | | i r IH];
    intros s g o; cbn [run lang].
  - intros [<-|[]]. auto.
  - intros H. apply in_one_char in H. destruct H as (c & -> & E & Hp & _).
    rewrite E. split; [reflexivity | eauto].
  - intros H. apply in_one_char in H. destruct H as (c & -> & E & Hp & _).
    rewrite E. split; [reflexivity | eauto].
  - intros H. apply in_one_char in H. destruct H as (c & -> & E & Hp & _).
    rewrite E. split; [reflexivity | eauto].
  - rewrite in_flat_map. intros (o1 & H1 & H). apply in_map_iff in H.
    destruct H as (o2 & <- & H2). apply IH1 in H1. apply IH2 in H2.
    destruct H1 as [E1 L1], H2 as [E2 L2]. cbn. split.
    + rewrite app_assoc_str, <- E2. exact E1.
    + eauto.
  - rewrite in_app_iff. intros [H|H]; [apply IH1 in H | apply IH2 in H]; tauto.
  - rewrite in_app_iff. intros [H|[<-|[]]]; [apply IH in H; tauto | auto].
  - intros H. apply in_star_any in H. tauto.
  - rewrite in_map_iff. intros (o' & <- & H). apply IH in H. exact H.
Qed.

Lemma caps_sat_cons P i w g : P i w -> caps_sat P g -> caps_sat P ((i, w) :: g).
Proof.
  intros Hw Hg j x. cbn [lookup_group]. destruct (Nat.eqb j i) eqn:E.
  - apply Nat.eqb_eq in E. subst j. intros [= <-]. exact Hw.
  - apply Hg.
Qed.

(** The groups of a success satisfy what the groups of the pattern do. *)
Lemma run_caps_sat ic P r : forall s g o,
  groups_sat ic P r -> caps_sat P g -> In o (run ic r s g) -> caps_sat P o.2.
Proof.
  induction r as [| | a | l | r1 IH1 r2 IH2 | r1 IH1 r2 IH2 | r IH | | i r IH];
    intros s g o HP Hg; cbn [run groups_sat] in *.
  - intros [<-|[]]. exact Hg.
  - intros H. apply in_one_char in H. destruct H as (c & _ & _ & _ & ->). exact Hg.
  - intros H. apply in_one_char in H. destruct H as (c & _ & _ & _ & ->). exact Hg.
  - intros H. apply in_one_char in H. destruct H as (c & _ & _ & _ & ->). exact Hg.
  - rewrite in_flat_map. intros (o1 & H1 & H). apply in_map_iff in H.
    destruct H as (o2 & <- & H2). cbn.
    eapply IH2; [tauto | | exact H2]. eapply IH1; [tauto | exact Hg | exact H1].
  - rewrite in_app_iff. intros [H|H]; [eapply IH1 | eapply IH2]; try exact H; tauto.
  - rewrite in_app_iff. intros [H|[<-|[]]]; [eapply IH; eassumption | exact Hg].
  - intros H. apply in_star_any in H. destruct H as [_ ->]. exact Hg.
  - rewrite in_map_iff. intros (o' & <- & H). cbn.
    apply caps_sat_cons.
    + apply HP. eapply run_lang. exact H.
    + eapply IH; [tauto | exact Hg | exact H].
Qed.

(** A group once set stays set. *)
Lemma run_keeps ic i r : forall s g o,
  In o (run ic r s g) -> is_Some (lookup_group i g) ->
  is_Some (lookup_group i o.2).
Proof.
  induction r as [| | a | l | r1 IH1 r2 IH2 | r1 IH1 r2 IH2 | r IH | | j r IH];
    intros s g o; cbn [run].
  - intros [<-|[]]. auto.
  - intros H. apply in_one_char in H. destruct H as (c & _ & _ & _ & ->). auto.
  - intros H. apply in_one_char in H. destruct H as (c & _ & _ & _ & ->). auto.
  - intros H. apply in_one_char in H. destruct H as (c & _ & _ & _ & ->). auto.
  - rewrite in_flat_map. intros (o1 & H1 & H). apply in_map_iff in H.
    destruct H as (o2 & <- & H2). cbn. intros Hg.
    eapply IH2; [exact H2|]. eapply IH1; [exact H1 | exact Hg].
  - rewrite in_app_iff. intros [H|H]; [eapply IH1 | eapply IH2]; exact H.
  - rewrite in_app_iff. intros [H|[<-|[]]]; [eapply IH; exact H | auto].
  - intros H. apply in_star_any in H. destruct H as [_ ->]. auto.
  - rewrite in_map_iff. intros (o' & <- & H) Hg. cbn [snd lookup_group].
    destruct (Nat.eqb i j); [eauto|]. eapply IH; eassumption.
Qed.

Lemma run_sets ic i r : forall s g o,
  In o (run ic r s g) -> In i (sets r) -> is_Some (lookup_group i o.2).
Proof.
  induction r as [| | a | l | r1 IH1 r2 IH2 | r1 IH1 r2 IH2 | r IH | | j r IH];
    intros s g o; cbn [run sets]; try solve [intros _ []].
  - rewrite in_flat_map. intros (o1 & H1 & H). apply in_map_iff in H.
    destruct H as (o2 & <- & H2). cbn. rewrite in_app_iff. intros [Hi|Hi].
    + eapply run_keeps; [exact H2|]. eapply IH1; eassumption.
    + eapply IH2; eassumption.
  - rewrite in_map_iff. intros (o' & <- & H). cbn [snd lookup_group In].
    destruct (Nat.eqb i j) eqn:E; [eauto|].
    intros [->|Hi]; [rewrite Nat.eqb_refl in E; discriminate|].
    eapply IH; eassumption.
Qed.

(** ** Digits and separators in the date pattern *)

Lemma strip_app l (a b : string) :
  sub_optset_empty l (a +:+ b) = sub_optset_empty l a +:+ sub_optset_empty l b.
Proof.
  induction a as [|c a IH]; [reflexivity|].
  rewrite append_cons. cbn [sub_optset_empty].
  destruct (existsb _ l); rewrite IH; reflexivity.
Qed.

Lemma all_digits_app (a b : string) :
  all_digits (a +:+ b) = all_digits a && all_digits b.
Proof.
  induction a as [|c a IH]; [reflexivity|].
  rewrite append_cons. cbn [all_digits]. rewrite IH, andb_assoc. reflexivity.
Qed.

Lemma length_app_str (a b : string) :
  String.length (a +:+ b) = String.length a + String.length b.
Proof.
  induction a as [|c a IH]; [reflexivity|].
  rewrite append_cons. cbn [String.length]. rewrite IH. reflexivity.
Qed.

Lemma digit_not_sep c : Str.is_digit c = true -> is_sep c = false.
Proof.
  destruct c as [[] [] [] [] [] [] [] []]; vm_compute; congruence.
Qed.

Lemma das_nil : digits_and_seps 0 EmptyString.
Proof. split; reflexivity. Qed.

Lemma das_digit c : Str.is_digit c = true -> digits_and_seps 1 (String c EmptyString).
Proof.
  intros H. unfold digits_and_seps. cbn [sub_optset_empty].
  fold (is_sep c). rewrite (digit_not_sep c H). cbn [all_digits String.length].
  rewrite H. auto.
Qed.

Lemma das_sep c : is_sep c = true -> digits_and_seps 0 (String c EmptyString).
Proof.
  intros H. unfold digits_and_seps. cbn [sub_optset_empty].
  fold (is_sep c). rewrite H. auto.
Qed.

Lemma das_app n1 n2 w1 w2 :
  digits_and_seps n1 w1 -> digits_and_seps n2 w2 ->
  digits_and_seps (n1 + n2) (w1 +:+ w2).
Proof.
  intros [D1 L1] [D2 L2]. unfold digits_and_seps.
  rewrite strip_app, all_digits_app, length_app_str, D1, D2, L1, L2. auto.
Qed.

Lemma atom_digit_ok a c :
  atom_digit a = true -> atom_ok false a c = true -> Str.is_digit c = true.
Proof.
  destruct a as [x|lo hi| |]; cbn [atom_digit atom_ok andb orb].
  - intros Hx Hc. apply Ascii.eqb_eq in Hc. subst c. exact Hx.
  - rewrite orb_false_r. unfold Str.is_digit, Str.between.
    rewrite !andb_true_iff, !N.leb_le. lia.
  - auto.
  - discriminate.
Qed.

Lemma atom_sep_ok a c :
  atom_sep a = true -> atom_ok false a c = true -> is_sep c = true.
Proof.
  destruct a as [x|lo hi| |]; cbn [atom_sep atom_ok].
  - intros Hx Hc. apply Ascii.eqb_eq in Hc. subst c. exact Hx.
  - discriminate.
  - discriminate.
  - intros _ H. unfold is_sep, separators. cbn [existsb atom_ok]. rewrite H. reflexivity.
Qed.

Lemma set_ok (kind : atom -> bool) (good : ascii -> bool) l c :
  (forall a, kind a = true -> atom_ok false a c = true -> good c = true) ->
  forallb kind l = true ->
  existsb (fun a => atom_ok false a c) l = true -> good c = true.
Proof.
  intros Hk Hl Hc. apply existsb_exists in Hc. destruct Hc as (a & Ha & Hc).
  rewrite forallb_forall in Hl. eapply Hk; [apply Hl; exact Ha | exact Hc].
Qed.

Lemma in_sums n l1 l2 :
  In n (sums l1 l2) -> exists a b, In a l1 /\ In b l2 /\ n = a + b.
Proof.
  unfold sums. rewrite in_flat_map. intros (a & Ha & H).
  apply in_map_iff in H. destruct H as (b & <- & Hb). eauto.
Qed.

(** [counts] is sound: a word of [r] has one of the listed numbers of
    digits and otherwise separators only. *)
Lemma counts_sound r : forall l w,
  counts r = Some l -> lang false r w ->
  exists n, In n l /\ digits_and_seps n w.
Proof.
  induction r as [| | a | l0 | r1 IH1 r2 IH2 | r1 IH1 r2 IH2 | r IH | | i r IH];
    intros l w; cbn [counts lang].
  - intros [= <-] ->. exists 0. split; [left; reflexivity | apply das_nil].
  - discriminate.
  - destruct (atom_digit a) eqn:Ed; [|destruct (atom_sep a) eqn:Es; [|discriminate]];
      intros [= <-] (c & -> & Hc).
    + exists 1. split; [left; reflexivity|]. apply das_digit.
      eapply atom_digit_ok; eassumption.
    + exists 0. split; [left; reflexivity|]. apply das_sep.
      eapply atom_sep_ok; eassumption.
  - destruct (forallb atom_digit l0) eqn:Ed;
      [|destruct (forallb atom_sep l0) eqn:Es; [|discriminate]];
      intros [= <-] (c & -> & Hc).
    + exists 1. split; [left; reflexivity|]. apply das_digit.
      eapply (set_ok atom_digit); [intros a; apply atom_digit_ok | exact Ed | exact Hc].
    + exists 0. split; [left; reflexivity|]. apply das_sep.
      eapply (set_ok atom_sep); [intros a; apply atom_sep_ok | exact Es | exact Hc].
  - destruct (counts r1) as [l1|]; [|discriminate].
    destruct (counts r2) as [l2|]; [|discriminate].
    intros [= <-] (w1 & w2 & -> & H1 & H2).
    destruct (IH1 _ _ eq_refl H1) as (n1 & Hn1 & D1).
    destruct (IH2 _ _ eq_refl H2) as (n2 & Hn2 & D2).
    exists (n1 + n2). split; [|apply das_app; assumption].
    unfold sums. apply in_flat_map. exists n1. split; [exact Hn1|].
    apply in_map. exact Hn2.
  - destruct (counts r1) as [l1|]; [|discriminate].
    destruct (counts r2) as [l2|]; [|discriminate].
    intros [= <-] [H|H].
    + destruct (IH1 _ _ eq_refl H) as (n & Hn & D). exists n.
      split; [apply in_or_app; left; exact Hn | exact D].
    + destruct (IH2 _ _ eq_refl H) as (n & Hn & D). exists n.
      split; [apply in_or_app; right; exact Hn | exact D].
  - destruct (counts r) as [l1|]; [|discriminate].
    intros [= <-] [H| ->].
    + destruct (IH _ _ eq_refl H) as (n & Hn & D). exists n.
      split; [apply in_or_app; left; exact Hn | exact D].
    + exists 0. split; [apply in_or_app; right; left; reflexivity | apply das_nil].
  - discriminate.
  - apply IH.
Qed.

Lemma counts_bound (f : nat -> bool) r w :
  match counts r with Some l => forallb f l | None => false end = true ->
  lang false r w -> exists n, f n = true /\ digits_and_seps n w.
Proof.
  destruct (counts r) as [l|] eqn:E; [|discriminate].
  intros Hf Hw. destruct (counts_sound r l w E Hw) as (n & Hn & D).
  exists n. split; [|exact D]. rewrite forallb_forall in Hf. apply Hf. exact Hn.
Qed.

Lemma rgx_dt_groups : groups_sat false dt_groups rgx_dt.
Proof.
  unfold rgx_dt. cbn [cat groups_sat word].
  repeat match goal with |- _ /\ _ => split end;
    try exact I; try (intros w Hw; exact I).
  - intros w Hw. apply (counts_bound (Nat.eqb 8)) in Hw; [|vm_compute; reflexivity].
    destruct Hw as (n & Hn & D). apply Nat.eqb_eq in Hn. subst n. exact D.
  - intros w Hw.
    apply (counts_bound (fun n => Nat.leb 4 n && Nat.leb n 6)) in Hw;
      [|vm_compute; reflexivity].
    destruct Hw as (n & Hn & D). apply andb_true_iff in Hn.
    rewrite !Nat.leb_le in Hn. exists n. split; [lia | exact D].
Qed.

(** For every key that matches the date pattern, the date and time with
    the separators stripped are 8, 12, 13 or 14 decimal digits. *)
Lemma datetime_str_shape key p :
  dt_match key = Some p ->
  all_digits (datetime_str_of p) = true /\
  (String.length (datetime_str_of p) = 8 \/
   String.length (datetime_str_of p) = 12 \/
   String.length (datetime_str_of p) = 13 \/
   String.length (datetime_str_of p) = 14).
Proof.
  unfold dt_match, re_match.
  destruct (run false rgx_dt (Str.lower key) []) as [|o os] eqn:E; [discriminate|].
  intros [= <-].
  assert (Hin : In o (run false rgx_dt (Str.lower key) [])) by (rewrite E; left; reflexivity).
  assert (Hsat : caps_sat dt_groups o.2).
  { eapply run_caps_sat; [apply rgx_dt_groups | | exact Hin]. intros i w [=]. }
  assert (H2 : is_Some (lookup_group 2 o.2)).
  { eapply run_sets; [exact Hin|]. vm_compute. auto. }
  destruct H2 as [w2 H2]. pose proof (Hsat 2 w2 H2) as D2. cbn in D2.
  unfold datetime_str_of, group. rewrite H2. cbn [from_option id].
  assert (D4 : exists n, (n = 0 \/ 4 <= n <= 6) /\
             digits_and_seps n (default EmptyString (lookup_group 4 o.2))).
  { destruct (lookup_group 4 o.2) as [w4|] eqn:H4; cbn [from_option id].
    - destruct (Hsat 4 w4 H4) as (n & Hn & D). exists n. auto.
    - exists 0. split; [auto | apply das_nil]. }
  destruct D4 as (n & Hn & D4).
  destruct (das_app _ _ _ _ D2 D4) as [Hd Hl]. split; [exact Hd|].
  rewrite Hl. lia.
Qed.

(** ** What the parser's date pattern can capture *)

Lemma char_lower_not_T c : Str.char_lower c <> "T"%char.
Proof. destruct c as [[] [] [] [] [] [] [] []]; vm_compute; discriminate. Qed.

(** A lower-cased key holds no capital T, so the [T?] of the date pattern
    never takes a character in the parser. *)
Lemma lower_has_no_T key : Str.contains "T" (Str.lower key) = false.
Proof.
  induction key as [|c key IH]; [reflexivity|].
  cbn [Str.lower Str.contains Str.startswith].
  rewrite IH, orb_false_r, andb_true_r.
  apply Ascii.eqb_neq. intros H. symmetry in H. exact (char_lower_not_T c H).
Qed.

Lemma strptime_not_KeyError s fmt : Datetime.strptime s fmt <> Raise KeyError.
Proof.
  unfold Datetime.strptime. destruct (Datetime.read_fields _ _ _) as [t|];
    [destruct (Datetime.valid t)|]; discriminate.
Qed.

(** The lookup of line 136 raises [KeyError] exactly for 13 digits. *)
Lemma timestamp_KeyError_iff key p :
  dt_match key = Some p ->
  (timestamp_of p = Raise KeyError <-> String.length (datetime_str_of p) = 13).
Proof.
  intros Hm. destruct (datetime_str_shape key p Hm) as [_ Hl].
  unfold timestamp_of.
  destruct Hl as [E|[E|[E|E]]]; rewrite E; cbn; split; intros H;
    try discriminate H; try reflexivity;
    destruct (strptime_not_KeyError _ _ H).
Qed.

(** ** The date/value attribute parser *)

Section ParserProperties.

Variable F : Type.
Variable nan : F.
Variable literal_value : string -> F.

Local Abbreviation pyvalue := (pyvalue F).
Local Abbreviation buckets := (gmap string (list (Datetime.datetime * F))).
Local Abbreviation float_ := (float_ F literal_value).
Local Abbreviation loop_body := (loop_body F nan literal_value).
Local Abbreviation loop := (loop F nan literal_value).
Local Abbreviation extract := (extractDateValueAttributes F nan literal_value).
Local Abbreviation init := (d_date_value_init F).
Local Abbreviation float_or_nan := (float_or_nan F nan literal_value).

Lemma is_empty_iff s : Str.is_empty s = true <-> s = EmptyString.
Proof. destruct s; simpl; split; congruence. Qed.

Lemma any_in_uncertainty tag :
  Str.any_in keys_uncertainty tag = true <-> uncertainty_tag tag.
Proof.
  unfold Str.any_in, keys_uncertainty, uncertainty_tag. cbn [existsb].
  rewrite !orb_true_iff, !contains_iff. intuition discriminate.
Qed.

(** The bucket name the branches of lines 138-148 compute. *)
Lemma loop_body_matched d key value p ts :
  dt_match key = Some p -> timestamp_of p = Ok ts ->
  exists base suffix,
    component (tag_of p) base /\ variant (tag_of p) suffix /\
    loop_body d (key, value) =
      append_to F d (base +:+ suffix) (ts, float_or_nan value).
Proof.
  intros Hm Ht. unfold loop_body. unfold dt_match in Hm. rewrite Hm.
  unfold timestamp_of, datetime_str_of in Ht.
  destruct (getitem d_dt_fmt _) as [fmt|e] eqn:Hf; [|discriminate Ht].
  cbn [bind] in Ht |- *. rewrite Ht. cbn [bind].
  fold (tag_of p). fold (float_or_nan value).
  set (tag := tag_of p).
  assert (Hv : exists suffix, variant tag suffix /\
     (if Str.any_in keys_uncertainty tag then "_sigma" else EmptyString) = suffix).
  { destruct (Str.any_in keys_uncertainty tag) eqn:U; eexists; (split; [|reflexivity]).
    - left. split; [apply any_in_uncertainty; exact U | reflexivity].
    - right. split; [|reflexivity]. intros H. apply any_in_uncertainty in H. congruence. }
  destruct Hv as (suffix & Hv & ->).
  unfold component.
  destruct (Str.is_empty tag) eqn:He; cbn [orb].
  { exists "los", suffix. split; [|split; [exact Hv | reflexivity]].
    left. split; [left; apply is_empty_iff; exact He | reflexivity]. }
  destruct (Str.contains "los" tag) eqn:Hl.
  { exists "los", suffix. split; [|split; [exact Hv | reflexivity]].
    left. split; [right; apply contains_iff; exact Hl | reflexivity]. }
  assert (Hnl : ~ (tag = EmptyString \/ occurs_in "los" tag)).
  { intros [H|H]; [apply is_empty_iff in H | apply contains_iff in H]; congruence. }
  destruct (Str.contains "h" tag) eqn:Hh.
  { exists "h", suffix. split; [|split; [exact Hv | reflexivity]].
    right; left. split; [exact Hnl|]. split; [apply contains_iff; exact Hh | reflexivity]. }
  assert (Hnh : ~ occurs_in "h" tag).
  { intros H; apply contains_iff in H; congruence. }
  destruct (Str.contains "v" tag) eqn:Hvv.
  { exists "v", suffix. split; [|split; [exact Hv | reflexivity]].
    right; right; left. split; [exact Hnl|]. split; [exact Hnh|].
    split; [apply contains_iff; exact Hvv | reflexivity]. }
  exists "los", suffix. split; [|split; [exact Hv | reflexivity]].
  right; right; right. split; [exact Hnl|]. split; [exact Hnh|].
  split; [|reflexivity]. intros H; apply contains_iff in H; congruence.
Qed.

Lemma bucket_name_in_keys tag base suffix :
  component tag base -> variant tag suffix -> In (base +:+ suffix) bucket_keys.
Proof.
  intros Hc Hv.
  assert (Hb : base = "los" \/ base = "h" \/ base = "v")
    by (unfold component in Hc; tauto).
  assert (Hs : suffix = "_sigma" \/ suffix = EmptyString)
    by (unfold variant in Hv; tauto).
  destruct Hb as [-> | [-> | ->]], Hs as [-> | ->]; vm_compute; tauto.
Qed.

Lemma loop_body_unmatched d key value :
  dt_match key = None -> loop_body d (key, value) = Ok d.
Proof. intros H. unfold loop_body. unfold dt_match in H. rewrite H. reflexivity. Qed.

Lemma loop_app a b d :
  loop (a ++ b)%list d = (let? d' := loop a d in loop b d').
Proof.
  revert d. induction a as [|x a IH]; intros d; [reflexivity|].
  cbn [app loop]. destruct (loop_body d x) as [d'|e]; cbn [bind]; [apply IH | reflexivity].
Qed.

Lemma loop_snoc a x d :
  loop (a ++ [x])%list d = (let? d' := loop a d in loop_body d' x).
Proof.
  rewrite loop_app. destruct (loop a d) as [d'|e]; cbn [bind]; [|reflexivity].
  cbn [loop]. destruct (loop_body d' x); reflexivity.
Qed.

Lemma append_to_Ok d k x d' :
  append_to F d k x = Ok d' ->
  exists l, d !! k = Some l /\ d' = <[ k := (l ++ [x])%list ]> d.
Proof.
  unfold append_to, getitem. destruct (d !! k) as [l|]; simpl.
  2:{ discriminate. }
  intros [= <-]. eauto.
Qed.

Lemma dom_init : dom init = list_to_set bucket_keys.
Proof. unfold d_date_value_init. rewrite dom_list_to_map_L. rewrite map_map. cbn [map fst]. reflexivity. Qed.

Lemma timestamp_of_cases p :
  (exists ts, timestamp_of p = Ok ts) \/ (exists e, timestamp_of p = Raise e).
Proof. destruct (timestamp_of p); eauto. Qed.

Lemma loop_body_raises d key value p e :
  dt_match key = Some p -> timestamp_of p = Raise e ->
  loop_body d (key, value) = Raise e.
Proof.
  intros Hm Ht. unfold loop_body. unfold dt_match in Hm. rewrite Hm.
  unfold timestamp_of, datetime_str_of in Ht.
  destruct (getitem d_dt_fmt _) as [fmt|e'] eqn:Hf; cbn [bind] in Ht |- *.
  - rewrite Ht. reflexivity.
  - injection Ht as ->. reflexivity.
Qed.

Lemma loop_body_effect d key value d' :
  loop_body d (key, value) = Ok d' -> step_effect d d' key.
Proof.
  intros H. destruct (dt_match key) as [p|] eqn:Hm.
  - destruct (timestamp_of_cases p) as [[ts Ht]|[e Ht]].
    + destruct (loop_body_matched d key value p ts Hm Ht)
        as (base & suffix & Hc & Hv & E).
      rewrite E in H. apply append_to_Ok in H. destruct H as (l & Hl & ->).
      eapply effect_add; [exists p; exact Hm | | exact Hl | reflexivity].
      eapply bucket_name_in_keys; eassumption.
    + rewrite (loop_body_raises d key value p e Hm Ht) in H. discriminate.
  - rewrite loop_body_unmatched in H by exact Hm. injection H as <-.
    apply effect_skip; [exact Hm | reflexivity].
Qed.

Lemma step_effect_dom (d d' : buckets) key :
  step_effect d d' key -> dom d' = dom d.
Proof.
  intros [_ ->|b l pair _ _ Hl ->]; [reflexivity|].
  rewrite dom_insert_L. apply elem_of_dom_2 in Hl.
  apply subseteq_union_1_L, singleton_subseteq_l. exact Hl.
Qed.

Lemma loop_dom items d d' : loop items d = Ok d' -> dom d' = dom d.
Proof.
  revert d. induction items as [|[key value] items IH]; intros d; cbn [loop].
  - intros [= <-]. reflexivity.
  - destruct (loop_body d (key, value)) as [d1|e] eqn:E; cbn [bind]; [|discriminate].
    intros H. rewrite (IH _ H). eapply step_effect_dom, loop_body_effect, E.
Qed.

Lemma entries_insert (d : buckets) b l pair :
  In b bucket_keys -> d !! b = Some l ->
  entries (<[ b := (l ++ [pair])%list ]> d) = S (entries d).
Proof.
  intros Hb Hl. unfold entries, bucket_keys in *. cbn [map sum_list].
  repeat (destruct Hb as [<-|Hb];
    [ rewrite lookup_insert_eq, !lookup_insert_ne by discriminate;
      rewrite Hl; cbn [default id]; rewrite length_app; cbn [length]; lia | ]).
  destruct Hb.
Qed.

Lemma step_effect_entries (d d' : buckets) key :
  step_effect d d' key ->
  entries d' = ((if dt_keyb key then 1 else 0) + entries d)%nat.
Proof.
  unfold dt_keyb. intros [Hm ->|b l pair [p Hp] Hb Hl ->].
  - rewrite Hm. reflexivity.
  - rewrite Hp. apply entries_insert; assumption.
Qed.

Lemma loop_entries items d d' :
  loop items d = Ok d' -> entries d' = (matching_keys items + entries d)%nat.
Proof.
  unfold matching_keys.
  revert d. induction items as [|[key value] items IH]; intros d; cbn [loop].
  - intros [= <-]. reflexivity.
  - destruct (loop_body d (key, value)) as [d1|e] eqn:E; cbn [bind]; [|discriminate].
    intros H. rewrite (IH _ H).
    rewrite (step_effect_entries _ _ _ (loop_body_effect _ _ _ _ E)).
    cbn [List.filter fst]. destruct (dt_keyb key); cbn [length]; lia.
Qed.

Lemma loop_split pre item post d0 d :
  loop (pre ++ item :: post)%list d0 = Ok d ->
  exists d1 d2, loop pre d0 = Ok d1 /\ loop_body d1 item = Ok d2 /\
                loop post d2 = Ok d.
Proof.
  rewrite loop_app.
  destruct (loop pre d0) as [d1|e]; cbn [bind]; [|discriminate].
  cbn [loop].
  destruct (loop_body d1 item) as [d2|e] eqn:E2; cbn [bind]; [|discriminate].
  intros H. exists d1, d2. split; [reflexivity|]. split; [exact E2 | exact H].
Qed.

Lemma float_or_nan_None value : float_ value = None -> float_or_nan value = nan.
Proof. unfold float_or_nan. intros ->. reflexivity. Qed.

Lemma loop_body_float_or_nan d key value :
  loop_body d (key, value) = loop_body d (key, PyFloat (float_or_nan value)).
Proof.
  unfold loop_body, float_or_nan. cbn [float_]. reflexivity.
Qed.

(** C9.  When the parser succeeds on a mapping, its result has exactly the
    six keys los, h, v, los_sigma, h_sigma, v_sigma; the buckets hold as
    many pairs as the mapping has keys matching the date pattern; and at
    every item of the mapping the loop body either leaves the buckets as
    they are, when the key does not match, or appends one pair to one of
    the six buckets and changes no other, when it matches.  The empty
    mapping gives the six empty buckets. *)
Theorem matching_keys_fill_one_bucket_each
    (attributes : list (string * pyvalue)) (d : buckets) :
  extract attributes = Ok d ->
  dom d = list_to_set bucket_keys /\
  entries d = matching_keys attributes /\
  (forall pre key value post,
     attributes = (pre ++ (key, value) :: post)%list ->
     exists d0 d1,
       extract pre = Ok d0 /\ loop_body d0 (key, value) = Ok d1 /\
       loop post d1 = Ok d /\ step_effect d0 d1 key) /\
  extract [] = Ok init /\ dom init = list_to_set bucket_keys.
Proof.
  unfold extractDateValueAttributes. intros H.
  split; [|split; [|split; [|split]]].
  - rewrite (loop_dom _ _ _ H). apply dom_init.
  - rewrite (loop_entries _ _ _ H). unfold entries. vm_compute sum_list. lia.
  - intros pre key value post ->. apply loop_split in H.
    destruct H as (d1 & d2 & H1 & H2 & H3). exists d1, d2.
    split; [exact H1|]. split; [exact H2|]. split; [exact H3|].
    eapply loop_body_effect. exact H2.
  - reflexivity.
  - apply dom_init.
Qed.

Lemma extract_snoc_matched
    (attributes : list (string * pyvalue)) (key : string) (value : pyvalue)
    (d : buckets) (p : match_obj) (ts : Datetime.datetime) :
  extract attributes = Ok d ->
  dt_match key = Some p ->
  timestamp_of p = Ok ts ->
  exists base suffix l,
     component (tag_of p) base /\ variant (tag_of p) suffix /\
     d !! (base +:+ suffix) = Some l /\
     extract (attributes ++ [(key, value)])%list =
       Ok (<[ base +:+ suffix := (l ++ [(ts, float_or_nan value)])%list ]> d).
Proof.
  intros Hd Hm Ht.
  destruct (loop_body_matched d key value p ts Hm Ht)
    as (base & suffix & Hc & Hv & E).
  assert (Hin : In (base +:+ suffix) bucket_keys)
    by (eapply bucket_name_in_keys; eassumption).
  assert (Hl : exists l, d !! (base +:+ suffix) = Some l).
  { apply elem_of_dom. unfold extractDateValueAttributes in Hd.
    rewrite (loop_dom _ _ _ Hd), dom_init. apply elem_of_list_to_set.
    apply list_elem_of_In. exact Hin. }
  destruct Hl as [l Hl]. exists base, suffix, l.
  split; [exact Hc|]. split; [exact Hv|]. split; [exact Hl|].
  unfold extractDateValueAttributes in *. rewrite loop_snoc, Hd. cbn [bind].
  rewrite E. unfold append_to, getitem. rewrite Hl. reflexivity.
Qed.

(** C2.  If the parser succeeds on a mapping with buckets [d], and a
    further key matches the date pattern with a timestamp that parses, then
    the parser on the mapping extended with that key appends the pair of
    the timestamp and the coerced value to the bucket named base plus
    suffix of [d], where the suffix is _sigma exactly when the tag (the
    text before and after the date, separators stripped) contains err,
    sigma or std, and the base is los when the tag is empty or contains
    los, else h when it contains h, else v when it contains v, else los.
    The key h20200101_err alone gives one entry for 2020-01-01 in the
    bucket h_sigma. *)
Theorem tag_routes_pair
    (attributes : list (string * pyvalue)) (key : string) (value : pyvalue)
    (d : buckets) (p : match_obj) (ts : Datetime.datetime) :
  extract attributes = Ok d ->
  dt_match key = Some p ->
  timestamp_of p = Ok ts ->
  (exists base suffix l,
     component (tag_of p) base /\ variant (tag_of p) suffix /\
     d !! (base +:+ suffix) = Some l /\
     extract (attributes ++ [(key, value)])%list =
       Ok (<[ base +:+ suffix := (l ++ [(ts, float_or_nan value)])%list ]> d)) /\
  (forall v,
     extract [("h20200101_err", v)] =
       Ok (<[ "h_sigma" :=
                [(Datetime.mk_datetime 2020 1 1 0 0 0, float_or_nan v)] ]>
             init)).
Proof.
  intros Hd Hm Ht. split.
  - exact (extract_snoc_matched attributes key value d p ts Hd Hm Ht).
  - intros v. vm_compute. reflexivity.
Qed.

(** C7.  A value that [float] cannot coerce is treated as the number
    not-a-number: the parser gives the same result on the mapping as on the
    mapping with that value replaced by not-a-number, whatever the other
    items are; when the key matches and its timestamp parses, the pair
    appended for it is the timestamp with not-a-number.  The null value and
    the string NULL are such values. *)
Theorem uncoercible_value_recorded_as_nan
    (pre : list (string * pyvalue)) (key : string) (value : pyvalue)
    (post : list (string * pyvalue)) :
  float_ value = None ->
  extract (pre ++ (key, value) :: post)%list =
    extract (pre ++ (key, PyFloat nan) :: post)%list /\
  (forall d0 p ts,
     extract pre = Ok d0 -> dt_match key = Some p -> timestamp_of p = Ok ts ->
     exists b l,
       In b bucket_keys /\ d0 !! b = Some l /\
       extract (pre ++ [(key, value)])%list =
         Ok (<[ b := (l ++ [(ts, nan)])%list ]> d0)) /\
  float_ PyNull = None /\ float_ (PyStr "NULL") = None.
Proof.
  intros Hf. split; [|split; [|split; reflexivity]].
  - unfold extractDateValueAttributes. rewrite !loop_app.
    destruct (loop pre init) as [d1|e]; cbn [bind]; [|reflexivity].
    cbn [loop]. rewrite (loop_body_float_or_nan d1 key value).
    rewrite (float_or_nan_None _ Hf). reflexivity.
  - intros d0 p ts Hd Hm Ht.
    destruct (extract_snoc_matched pre key value d0 p ts Hd Hm Ht)
      as (base & suffix & l & Hc & Hv & Hl & E).
    exists (base +:+ suffix), l. split; [eapply bucket_name_in_keys; eassumption|].
    split; [exact Hl|]. rewrite E, (float_or_nan_None _ Hf). reflexivity.
Qed.

(** C3.  The parser at two keys that match the date pattern.  For the key
    2019123112345 the date group is 20191231 and the time group 12345, the
    stripped digits are 13 long, the format lookup raises [KeyError] and so
    does the parser.  For the key 20201301 the stripped digits are 8 long
    and the timestamp parse raises [ValueError] (there is no month 13), and
    so does the parser.  In general the stripped digits of a matching key
    are 8, 12, 13 or 14 long, and the lookup raises [KeyError] exactly at
    13. *)
Theorem thirteen_digit_key_raises (value : pyvalue) :
  (exists p,
     dt_match "2019123112345" = Some p /\
     group p 2 = Some "20191231" /\ group p 4 = Some "12345" /\
     datetime_str_of p = "2019123112345" /\
     String.length (datetime_str_of p) = 13 /\
     timestamp_of p = Raise KeyError) /\
  extract [("2019123112345", value)] = Raise KeyError /\
  (exists p,
     dt_match "20201301" = Some p /\ datetime_str_of p = "20201301" /\
     timestamp_of p = Raise ValueError) /\
  extract [("20201301", value)] = Raise ValueError /\
  (forall key p,
     dt_match key = Some p ->
     (String.length (datetime_str_of p) = 8 \/
      String.length (datetime_str_of p) = 12 \/
      String.length (datetime_str_of p) = 13 \/
      String.length (datetime_str_of p) = 14) /\
     (timestamp_of p = Raise KeyError <->
      String.length (datetime_str_of p) = 13)).
Proof.
  split; [|split; [|split; [|split]]].
  - eexists. split; [vm_compute; reflexivity|].
    repeat split; vm_compute; reflexivity.
  - vm_compute. reflexivity.
  - eexists. split; [vm_compute; reflexivity|].
    split; vm_compute; reflexivity.
  - vm_compute. reflexivity.
  - intros key p Hm. split.
    + exact (proj2 (datetime_str_shape key p Hm)).
    + exact (timestamp_KeyError_iff key p Hm).
Qed.

(** C4.  The parser at the key 20200101T1200.  The key is lower-cased
    before the case-sensitive match, the T of the pattern takes nothing, the
    time group stays unset and t1200 is the text after the date: the
    stripped digits are 20200101, 8 long, and the pair is recorded in the
    los bucket with the timestamp 2020-01-01 00:00:00.  The same pattern
    with IGNORECASE on the key as it is, which is what the time-series check
    does, captures the time 1200 and gives the 12 digits 202001011200 and
    the timestamp 2020-01-01 12:00:00.  No lower-cased key holds a capital
    T. *)
Theorem time_after_T_is_dropped (value : pyvalue) :
  (exists p,
     dt_match "20200101T1200" = Some p /\
     group p 2 = Some "20200101" /\ group p 4 = None /\
     group p 5 = Some "t1200" /\
     datetime_str_of p = "20200101" /\
     timestamp_of p = Ok (Datetime.mk_datetime 2020 1 1 0 0 0)) /\
  extract [("20200101T1200", value)] =
    Ok (<[ "los" :=
             [(Datetime.mk_datetime 2020 1 1 0 0 0, float_or_nan value)] ]>
          init) /\
  (exists q,
     re_match true rgx_dt "20200101T1200" = Some q /\
     group q 4 = Some "1200" /\
     datetime_str_of q = "202001011200" /\
     timestamp_of q = Ok (Datetime.mk_datetime 2020 1 1 12 0 0)) /\
  (forall key, Str.contains "T" (Str.lower key) = false).
Proof.
  split; [|split; [|split]].
  - eexists. split; [vm_compute; reflexivity|].
    repeat split; vm_compute; reflexivity.
  - vm_compute. reflexivity.
  - eexists. split; [vm_compute; reflexivity|].
    repeat split; vm_compute; reflexivity.
  - exact lower_has_no_T.
Qed.

End ParserProperties.

(** ** The parser theorems at concrete mappings *)

Lemma matching_keys_fill_one_bucket_each_witness :
  extractDateValueAttributes (option nat) None (fun _ => Some 0)
    [("20200101", PyFloat (Some 5)); ("name", PyNull)] =
    Ok (<[ "los" := [(Datetime.mk_datetime 2020 1 1 0 0 0, Some 5)] ]>
          (d_date_value_init (option nat))) /\
  entries (<[ "los" := [(Datetime.mk_datetime 2020 1 1 0 0 0, Some 5)] ]>
             (d_date_value_init (option nat))) =
    matching_keys [("20200101", @PyFloat (option nat) (Some 5)); ("name", PyNull)].
Proof.
  assert (H : extractDateValueAttributes (option nat) None (fun _ => Some 0)
                [("20200101", PyFloat (Some 5)); ("name", PyNull)] =
              Ok (<[ "los" := [(Datetime.mk_datetime 2020 1 1 0 0 0, Some 5)] ]>
                    (d_date_value_init (option nat))))
    by (vm_compute; reflexivity).
  split; [exact H|].
  exact (proj1 (proj2
    (matching_keys_fill_one_bucket_each (option nat) None (fun _ => Some 0) _ _ H))).
Defined.

Lemma tag_routes_pair_witness :
  extractDateValueAttributes (option nat) None (fun _ => Some 0)
    [("20200101", PyFloat (Some 5))] =
    Ok (<[ "los" := [(Datetime.mk_datetime 2020 1 1 0 0 0, Some 5)] ]>
          (d_date_value_init (option nat))) /\
  dt_match "h20200102_err" =
    Some [(5, "_err"); (2, "20200102"); (3, "20"); (1, "h")] /\
  timestamp_of [(5, "_err"); (2, "20200102"); (3, "20"); (1, "h")] =
    Ok (Datetime.mk_datetime 2020 1 2 0 0 0) /\
  exists base suffix l,
    component "herr" base /\ variant "herr" suffix /\
    (<[ "los" := [(Datetime.mk_datetime 2020 1 1 0 0 0, Some 5)] ]>
       (d_date_value_init (option nat))) !! (base +:+ suffix) = Some l /\
    extractDateValueAttributes (option nat) None (fun _ => Some 0)
      [("20200101", PyFloat (Some 5)); ("h20200102_err", PyStr "NULL")] =
      Ok (<[ base +:+ suffix :=
               (l ++ [(Datetime.mk_datetime 2020 1 2 0 0 0, None)])%list ]>
            (<[ "los" := [(Datetime.mk_datetime 2020 1 1 0 0 0, Some 5)] ]>
               (d_date_value_init (option nat)))).
Proof.
  assert (H1 : extractDateValueAttributes (option nat) None (fun _ => Some 0)
                 [("20200101", PyFloat (Some 5))] =
               Ok (<[ "los" := [(Datetime.mk_datetime 2020 1 1 0 0 0, Some 5)] ]>
                     (d_date_value_init (option nat))))
    by (vm_compute; reflexivity).
  assert (H2 : dt_match "h20200102_err" =
               Some [(5, "_err"); (2, "20200102"); (3, "20"); (1, "h")])
    by (vm_compute; reflexivity).
  assert (H3 : timestamp_of [(5, "_err"); (2, "20200102"); (3, "20"); (1, "h")] =
               Ok (Datetime.mk_datetime 2020 1 2 0 0 0))
    by (vm_compute; reflexivity).
  split; [exact H1|]. split; [exact H2|]. split; [exact H3|].
  exact (proj1 (tag_routes_pair (option nat) None (fun _ => Some 0)
                  [("20200101", PyFloat (Some 5))] "h20200102_err" (PyStr "NULL")
                  _ _ _ H1 H2 H3)).
Defined.

Lemma uncoercible_value_recorded_as_nan_witness :
  float_ (option nat) (fun _ => Some 0) (PyStr "NULL") = None /\
  extractDateValueAttributes (option nat) None (fun _ => Some 0)
    [("20200101", PyFloat (Some 5)); ("20200102", PyStr "NULL");
     ("v20200103", PyFloat (Some 7))] =
  extractDateValueAttributes (option nat) None (fun _ => Some 0)
    [("20200101", PyFloat (Some 5)); ("20200102", PyFloat None);
     ("v20200103", PyFloat (Some 7))].
Proof.
  split; [reflexivity|].
  exact (proj1 (uncoercible_value_recorded_as_nan (option nat) None (fun _ => Some 0)
                  [("20200101", PyFloat (Some 5))] "20200102" (PyStr "NULL")
                  [("v20200103", PyFloat (Some 7))] eq_refl)).
Defined.

(** * Further properties *)

(** ** The matcher, exactly *)

Lemma append_nil_l (b : string) : EmptyString +:+ b = b.
Proof. reflexivity. Qed.

Lemma append_nil_r (a : string) : a +:+ EmptyString = a.
Proof.
  induction a as [|c a IH]; [reflexivity|]. rewrite append_cons, IH. reflexivity.
Qed.


Lemma in_star_any_line s g o : In o (star_any s g) -> no_newline o.1.1 = true.
Proof.
  revert o. induction s as [|c s IH]; intros o; cbn [star_any].
  - intros [<-|[]]. reflexivity.
  - destruct (any_ok c) eqn:E.
    + rewrite in_app_iff, in_map_iff. intros [(o' & <- & H)|[<-|[]]].
      * cbn [fst snd no_newline]. rewrite E, (IH _ H). reflexivity.
      * reflexivity.
    + intros [<-|[]]. reflexivity.
Qed.

Lemma star_any_complete w rest g :
  no_newline w = true -> In (w, rest, g) (star_any (w +:+ rest) g).
Proof.
  induction w as [|c w IH]; intros H.
  - destruct rest as [|c rest]; cbn [star_any String.append].
    + left. reflexivity.
    + change (EmptyString +:+ String c rest) with (String c rest).
      cbn [star_any]. destruct (any_ok c).
      * apply in_or_app. right. left. reflexivity.
      * left. reflexivity.
  - cbn [no_newline] in H. apply andb_true_iff in H. destruct H as [Hc Hw].
    rewrite append_cons. cbn [star_any]. rewrite Hc.
    apply in_or_app. left.
    apply in_map_iff. exists (w, rest, g). split; [reflexivity | apply IH; exact Hw].
Qed.

(** A success splits the input into a word of the pattern and the rest. *)
Lemma run_words ic r : forall s g o,
  In o (run ic r s g) -> s = o.1.1 +:+ o.1.2 /\ words ic r o.1.1.
Proof.
  induction r as [| | a | l | r1 IH1 r2 IH2 | r1 IH1 r2 IH2 | r IH | | i r IH];
    intros s g o; cbn [run words].
  - intros [<-|[]]. auto.
  - intros H. apply in_one_char in H. destruct H as (c & -> & E & Hp & _).
    rewrite E. split; [reflexivity | eauto].
  - intros H. apply in_one_char in H. destruct H as (c & -> & E & Hp & _).
    rewrite E. split; [reflexivity | eauto].
  - intros H. apply in_one_char in H. destruct H as (c & -> & E & Hp & _).
    rewrite E. split; [reflexivity | eauto].
  - rewrite in_flat_map. intros (o1 & H1 & H). apply in_map_iff in H.
    destruct H as (o2 & <- & H2). apply IH1 in H1. apply IH2 in H2.
    destruct H1 as [E1 L1], H2 as [E2 L2]. cbn. split.
    + rewrite app_assoc_str, <- E2. exact E1.
    + eauto.
  - rewrite in_app_iff. intros [H|H]; [apply IH1 in H | apply IH2 in H]; tauto.
  - rewrite in_app_iff. intros [H|[<-|[]]]; [apply IH in H; tauto | auto].
  - intros H. split; [apply (in_star_any _ _ _ H) | apply (in_star_any_line _ _ _ H)].
  - rewrite in_map_iff. intros (o' & <- & H). apply IH in H. exact H.
Qed.

Lemma one_char_complete (p : ascii -> bool) c rest g :
  p c = true ->
  In (String c EmptyString, rest, g) (one_char p (String c EmptyString +:+ rest) g).
Proof. intros H. rewrite append_cons. cbn [one_char]. rewrite H. left. reflexivity. Qed.

(** Every word of the pattern in front of the input is a success. *)
Lemma run_complete ic r : forall w rest g,
  words ic r w -> exists g', In (w, rest, g') (run ic r (w +:+ rest) g).
Proof.
  induction r as [| | a | l | r1 IH1 r2 IH2 | r1 IH1 r2 IH2 | r IH | | i r IH];
    intros w rest g; cbn [run words].
  - intros ->. exists g. left. reflexivity.
  - intros (c & -> & H). exists g. apply one_char_complete. exact H.
  - intros (c & -> & H). exists g. apply one_char_complete. exact H.
  - intros (c & -> & H). exists g.
    apply (one_char_complete (fun c => existsb (fun a => atom_ok ic a c) l)). exact H.
  - intros (w1 & w2 & -> & H1 & H2).
    destruct (IH1 w1 (w2 +:+ rest) g H1) as [g1 G1].
    destruct (IH2 w2 rest g1 H2) as [g2 G2].
    exists g2. rewrite app_assoc_str. apply in_flat_map.
    exists (w1, w2 +:+ rest, g1). split; [exact G1|].
    apply in_map_iff. exists (w2, rest, g2). split; [reflexivity | exact G2].
  - intros [H|H].
    + destruct (IH1 w rest g H) as [g' G]. exists g'. apply in_or_app. left. exact G.
    + destruct (IH2 w rest g H) as [g' G]. exists g'. apply in_or_app. right. exact G.
  - intros [H| ->].
    + destruct (IH w rest g H) as [g' G]. exists g'. apply in_or_app. left. exact G.
    + exists g. apply in_or_app. right. left. reflexivity.
  - intros H. exists g. apply star_any_complete. exact H.
  - intros H. destruct (IH w rest g H) as [g' G]. exists ((i, w) :: g').
    apply in_map_iff. exists (w, rest, g'). split; [reflexivity | exact G].
Qed.

(** [match] succeeds exactly when the input starts with a word of the
    pattern. *)
Lemma re_match_iff ic r s :
  (exists p, re_match ic r s = Some p) <->
  (exists w rest, s = w +:+ rest /\ words ic r w).
Proof.
  unfold re_match. split.
  - destruct (run ic r s []) as [|o os] eqn:E; [intros [p H]; discriminate|].
    intros _. assert (Hin : In o (run ic r s [])) by (rewrite E; left; reflexivity).
    apply run_words in Hin. destruct Hin as [Hs Hw]. eauto.
  - intros (w & rest & -> & Hw).
    destruct (run_complete ic r w rest [] Hw) as [g' G].
    destruct (run ic r (w +:+ rest) []) as [|o os]; [destruct G | eauto].
Qed.

(** ** Lower case and the patterns *)

Lemma lower_app (a b : string) :
  Str.lower (a +:+ b) = Str.lower a +:+ Str.lower b.
Proof.
  induction a as [|c a IH]; [reflexivity|].
  rewrite append_cons. cbn [Str.lower]. rewrite IH. reflexivity.
Qed.

Lemma lower_app_inv s (x y : string) :
  Str.lower s = x +:+ y ->
  exists a b, s = a +:+ b /\ Str.lower a = x /\ Str.lower b = y.
Proof.
  revert s. induction x as [|c x IH]; intros s H.
  - exists EmptyString, s. auto.
  - destruct s as [|k s]; [discriminate H|].
    rewrite append_cons in H. cbn [Str.lower] in H. injection H as Hc H.
    destruct (IH s H) as (a & b & -> & Ha & Hb).
    exists (String k a), b. cbn [Str.lower]. rewrite Hc, Ha. auto.
Qed.

Lemma any_ok_lower c : any_ok (Str.char_lower c) = any_ok c.
Proof. destruct c as [[] [] [] [] [] [] [] []]; reflexivity. Qed.

Lemma no_newline_lower s : no_newline (Str.lower s) = no_newline s.
Proof.
  induction s as [|c s IH]; [reflexivity|].
  cbn [Str.lower no_newline]. rewrite any_ok_lower, IH. reflexivity.
Qed.

Lemma is_digit_lower c : Str.is_digit (Str.char_lower c) = Str.is_digit c.
Proof. destruct c as [[] [] [] [] [] [] [] []]; reflexivity. Qed.

Lemma is_space_lower c : Str.is_space (Str.char_lower c) = Str.is_space c.
Proof. destruct c as [[] [] [] [] [] [] [] []]; reflexivity. Qed.

Lemma char_lower_below c : (Str.code c < 65)%N -> Str.char_lower c = c.
Proof.
  intros H. unfold Str.char_lower, Str.between.
  destruct (65 <=? Str.code c)%N eqn:E1; [apply N.leb_le in E1; lia|].
  destruct (192 <=? Str.code c)%N eqn:E2; [apply N.leb_le in E2; lia|].
  reflexivity.
Qed.

Lemma char_lower_above c : (65 <= Str.code (Str.char_lower c))%N \/ Str.char_lower c = c.
Proof.
  unfold Str.char_lower.
  destruct (_ || _) eqn:E; [|right; reflexivity].
  left. destruct c as [[] [] [] [] [] [] [] []]; vm_compute in E |- *;
    congruence.
Qed.

Lemma atom_caseless a c :
  caseless_atom a = true ->
  atom_ok true a c = atom_ok false a (Str.char_lower c).
Proof.
  destruct a as [x|lo hi| |]; cbn [caseless_atom atom_ok andb orb].
  - intros H. apply Ascii.eqb_eq in H. rewrite H. reflexivity.
  - intros H. apply N.ltb_lt in H. rewrite orb_false_r.
    unfold Str.between.
    destruct (char_lower_above c) as [Hc| ->]; [|apply orb_diag].
    destruct (Str.code c <=? Str.code hi)%N eqn:E1.
    + apply N.leb_le in E1. rewrite (char_lower_below c) in Hc by lia. lia.
    + rewrite andb_false_r. reflexivity.
  - intros _. symmetry. apply is_digit_lower.
  - intros _. symmetry. apply is_space_lower.
Qed.

Lemma set_caseless l c :
  forallb caseless_atom l = true ->
  existsb (fun a => atom_ok true a c) l =
  existsb (fun a => atom_ok false a (Str.char_lower c)) l.
Proof.
  induction l as [|a l IH]; [reflexivity|]. cbn [forallb existsb].
  intros H. apply andb_true_iff in H. destruct H as [Ha Hl].
  rewrite (atom_caseless a c Ha), (IH Hl). reflexivity.
Qed.

Lemma lower_single s c :
  Str.lower s = String c EmptyString ->
  exists k, s = String k EmptyString /\ Str.char_lower k = c.
Proof.
  destruct s as [|k [|k' s]]; cbn [Str.lower]; try discriminate.
  intros [= <-]. eauto.
Qed.

Lemma lower_empty s : Str.lower s = EmptyString -> s = EmptyString.
Proof. destruct s; [reflexivity | discriminate]. Qed.

(** A caseless pattern takes a word under IGNORECASE exactly when it takes
    its lower-case form without. *)
Lemma words_caseless r : forall w,
  caseless r = true ->
  (words true r w <-> words false r (Str.lower w)).
Proof.
  induction r as [| | a | l | r1 IH1 r2 IH2 | r1 IH1 r2 IH2 | r IH | | i r IH];
    intros w; cbn [caseless words].
  - intros _. split; [intros ->; reflexivity | apply lower_empty].
  - intros _. split.
    + intros (c & -> & H). exists (Str.char_lower c).
      rewrite any_ok_lower. auto.
    + intros (c & E & H). apply lower_single in E.
      destruct E as (k & -> & <-). rewrite any_ok_lower in H. eauto.
  - intros Ha. split.
    + intros (c & -> & H). exists (Str.char_lower c).
      rewrite <- (atom_caseless a c Ha). auto.
    + intros (c & E & H). apply lower_single in E.
      destruct E as (k & -> & <-). rewrite <- (atom_caseless a k Ha) in H. eauto.
  - intros Hl. split.
    + intros (c & -> & H). exists (Str.char_lower c).
      rewrite <- (set_caseless l c Hl). auto.
    + intros (c & E & H). apply lower_single in E.
      destruct E as (k & -> & <-). rewrite <- (set_caseless l k Hl) in H. eauto.
  - intros H. apply andb_true_iff in H. destruct H as [H1 H2]. split.
    + intros (w1 & w2 & -> & W1 & W2). exists (Str.lower w1), (Str.lower w2).
      rewrite lower_app. split; [reflexivity|].
      split; [apply IH1 | apply IH2]; assumption.
    + intros (x & y & E & W1 & W2). apply lower_app_inv in E.
      destruct E as (a & b & -> & <- & <-). exists a, b.
      split; [reflexivity|]. split; [apply IH1 | apply IH2]; assumption.
  - intros H. apply andb_true_iff in H. destruct H as [H1 H2].
    rewrite (IH1 w H1), (IH2 w H2). reflexivity.
  - intros H. rewrite (IH w H). split.
    + intros [W| ->]; [left; exact W | right; reflexivity].
    + intros [W|E]; [left; exact W | right; apply lower_empty; exact E].
  - intros _. rewrite no_newline_lower. reflexivity.
  - apply IH.
Qed.

(** ** Which names the date pattern matches *)

Lemma rgx_dt_shape :
  rgx_dt = cat [ Group 1 StarAny; Group 2 rgx_date; Opt (One (chr "T"));
                 Opt (Group 4 rgx_time); Group 5 StarAny ].
Proof. reflexivity. Qed.

(** The date pattern matches exactly the names in which a date follows a
    text without a newline: all that comes after the date is optional. *)
Lemma rgx_dt_match_iff ic s :
  (exists p, re_match ic rgx_dt s = Some p) <->
  (exists a d rest,
     s = a +:+ d +:+ rest /\ no_newline a = true /\ words ic rgx_date d).
Proof.
  rewrite re_match_iff, rgx_dt_shape. cbn [cat words]. split.
  - intros (w & rest & -> & a & w1 & -> & Ha & d & w2 & -> & Hd & _).
    exists a, d, (w2 +:+ rest). rewrite !app_assoc_str. auto.
  - intros (a & d & rest & -> & Ha & Hd).
    exists (a +:+ d), rest. split; [rewrite app_assoc_str; reflexivity|].
    exists a, d. split; [reflexivity|]. split; [exact Ha|].
    exists d, EmptyString. split; [rewrite append_nil_r; reflexivity|].
    split; [exact Hd|].
    exists EmptyString, EmptyString. split; [reflexivity|]. split; [right; reflexivity|].
    exists EmptyString, EmptyString. split; [reflexivity|]. split; [right; reflexivity|].
    exists EmptyString, EmptyString. split; [reflexivity|]. split; reflexivity.
Qed.

(** The time-series check and the parser agree on the names: a field name
    matches the pattern of the check exactly when the parser takes it as a
    key. *)
Lemma date_field_iff_dt_key name : date_field name <-> dt_key name.
Proof.
  unfold date_field, dt_key, dt_match. rewrite !rgx_dt_match_iff. split.
  - intros (a & d & rest & -> & Ha & Hd).
    exists (Str.lower a), (Str.lower d), (Str.lower rest).
    rewrite !lower_app, no_newline_lower. split; [reflexivity|]. split; [exact Ha|].
    apply words_caseless; [reflexivity | exact Hd].
  - intros (x & y & z & E & Hx & Hy).
    apply lower_app_inv in E. destruct E as (a & b & -> & <- & E).
    apply lower_app_inv in E. destruct E as (d & rest & -> & <- & <-).
    exists a, d, rest. split; [reflexivity|].
    rewrite no_newline_lower in Hx. split; [exact Hx|].
    apply words_caseless; [reflexivity | exact Hy].
Qed.

(** ** The groups of a match of the date pattern *)

Lemma words_lang ic r : forall w, words ic r w -> lang ic r w.
Proof.
  induction r as [| | a | l | r1 IH1 r2 IH2 | r1 IH1 r2 IH2 | r IH | | i r IH];
    intros w; cbn [words lang]; auto.
  - intros (w1 & w2 & -> & H1 & H2). exists w1, w2. auto.
  - intros [H|H]; auto.
  - intros [H|H]; auto.
Qed.

(** A pattern leaves the groups it does not hold as they are. *)
Lemma run_frame ic i r : forall s g o,
  In o (run ic r s g) -> ~ In i (groups_of r) ->
  lookup_group i o.2 = lookup_group i g.
Proof.
  induction r as [| | a | l | r1 IH1 r2 IH2 | r1 IH1 r2 IH2 | r IH | | j r IH];
    intros s g o; cbn [run groups_of].
  - intros [<-|[]] _. reflexivity.
  - intros H _. apply in_one_char in H. destruct H as (c & _ & _ & _ & ->). reflexivity.
  - intros H _. apply in_one_char in H. destruct H as (c & _ & _ & _ & ->). reflexivity.
  - intros H _. apply in_one_char in H. destruct H as (c & _ & _ & _ & ->). reflexivity.
  - rewrite in_flat_map. intros (o1 & H1 & H) Hn. apply in_map_iff in H.
    destruct H as (o2 & <- & H2). cbn [snd].
    rewrite (IH2 _ _ _ H2), (IH1 _ _ _ H1); [reflexivity | |];
      intros Hi; apply Hn, in_or_app; auto.
  - rewrite in_app_iff. intros [H|H] Hn; [eapply IH1 | eapply IH2];
      try exact H; intros Hi; apply Hn, in_or_app; auto.
  - rewrite in_app_iff. intros [H|[<-|[]]] Hn; [eapply IH; eassumption | reflexivity].
  - intros H _. apply in_star_any in H. destruct H as [_ ->]. reflexivity.
  - rewrite in_map_iff. intros (o' & <- & H) Hn. cbn [snd lookup_group].
    destruct (Nat.eqb i j) eqn:E.
    + apply Nat.eqb_eq in E. subst j. destruct Hn. left. reflexivity.
    + eapply IH; [exact H|]. intros Hi. apply Hn. right. exact Hi.
Qed.

Lemma in_run_seq ic r1 r2 s g o :
  In o (run ic (Seq r1 r2) s g) ->
  exists o1 o2, In o1 (run ic r1 s g) /\ In o2 (run ic r2 o1.1.2 o1.2) /\
                o = (o1.1.1 +:+ o2.1.1, o2.1.2, o2.2).
Proof.
  cbn [run]. rewrite in_flat_map. intros (o1 & H1 & H).
  apply in_map_iff in H. destruct H as (o2 & <- & H2). eauto.
Qed.

Lemma in_run_group ic i r s g o :
  In o (run ic (Group i r) s g) ->
  exists o', In o' (run ic r s g) /\ o = (o'.1.1, o'.1.2, (i, o'.1.1) :: o'.2).
Proof. cbn [run]. rewrite in_map_iff. intros (o' & <- & H). eauto. Qed.

Lemma in_run_opt ic r s g o :
  In o (run ic (Opt r) s g) -> In o (run ic r s g) \/ o = (EmptyString, s, g).
Proof. cbn [run]. rewrite in_app_iff. intros [H|[<-|[]]]; auto. Qed.

(** What a success of the date pattern is made of: the text before, the
    date, the T, the time and the text after, with the groups they set. *)
Lemma rgx_dt_outcome ic s o :
  In o (run ic rgx_dt s []) ->
  exists a d t tm b,
    s = a +:+ d +:+ t +:+ tm +:+ b +:+ o.1.2 /\
    no_newline a = true /\ words ic rgx_date d /\
    words ic (Opt (One (chr "T"))) t /\
    lookup_group 1 o.2 = Some a /\ lookup_group 2 o.2 = Some d /\
    ((tm = EmptyString /\ lookup_group 4 o.2 = None) \/
     (words ic rgx_time tm /\ lookup_group 4 o.2 = Some tm)) /\
    lookup_group 5 o.2 = Some b /\ no_newline b = true.
Proof.
  rewrite rgx_dt_shape. cbn [cat]. intros H.
  apply in_run_seq in H. destruct H as (o1 & o1' & H1 & H & ->).
  apply in_run_group in H1. destruct H1 as (oa & Ha & ->).
  pose proof (in_star_any _ _ _ Ha) as [Ea Ga].
  pose proof (in_star_any_line _ _ _ Ha) as La.
  cbn [fst snd] in H.
  apply in_run_seq in H. destruct H as (o2 & o2' & H2 & H & ->).
  apply in_run_group in H2. destruct H2 as (od & Hd & ->).
  pose proof (run_words _ _ _ _ _ Hd) as [Ed Wd].
  assert (Fd : forall i, i <> 3 ->
            lookup_group i od.2 = lookup_group i ((1, oa.1.1) :: oa.2)).
  { intros i Hi. eapply run_frame; [exact Hd|]. cbn. intros [E|[]]. congruence. }
  cbn [fst snd] in H.
  apply in_run_seq in H. destruct H as (o3 & o3' & H3 & H & ->).
  pose proof (run_words _ _ _ _ _ H3) as [Et Wt].
  assert (Ft : forall i, lookup_group i o3.2 =
                         lookup_group i ((2, od.1.1) :: od.2)).
  { intros i. eapply run_frame; [exact H3|]. cbn. tauto. }
  apply in_run_seq in H. destruct H as (o4 & o4' & H4 & H & ->).
  apply in_run_seq in H. destruct H as (o5 & o6 & H5 & H6 & ->).
  apply in_run_group in H5. destruct H5 as (ob & Hb & ->).
  pose proof (in_star_any _ _ _ Hb) as [Eb Gb].
  pose proof (in_star_any_line _ _ _ Hb) as Lb.
  cbn [run] in H6. destruct H6 as [<-|[]]. cbn [fst snd] in *.
  assert (G1 : lookup_group 1 o3.2 = Some oa.1.1).
  { rewrite Ft. cbn [lookup_group Nat.eqb]. rewrite Fd by discriminate.
    cbn [lookup_group Nat.eqb]. reflexivity. }
  assert (G2 : lookup_group 2 o3.2 = Some od.1.1).
  { rewrite Ft. cbn [lookup_group Nat.eqb]. reflexivity. }
  assert (G4 : lookup_group 4 o3.2 = None).
  { rewrite Ft. cbn [lookup_group Nat.eqb]. rewrite Fd by discriminate.
    cbn [lookup_group Nat.eqb]. rewrite Ga. reflexivity. }
  apply in_run_opt in H4.
  exists oa.1.1, od.1.1, o3.1.1, o4.1.1, ob.1.1.
  assert (Es : s = oa.1.1 +:+ od.1.1 +:+ o3.1.1 +:+ o4.1.1 +:+ ob.1.1 +:+ ob.1.2).
  { rewrite <- Eb.
    assert (E4 : o3.1.2 = o4.1.1 +:+ o4.1.2).
    { destruct H4 as [H4| ->]; [|reflexivity].
      apply in_run_group in H4. destruct H4 as (ot & Ht & ->).
      apply (run_words _ _ _ _ _ Ht). }
    rewrite <- E4, <- Et, <- Ed. exact Ea. }
  split; [exact Es|]. split; [exact La|]. split; [exact Wd|]. split; [exact Wt|].
  rewrite Gb. cbn [lookup_group Nat.eqb].
  destruct H4 as [H4| ->].
  - apply in_run_group in H4. destruct H4 as (ot & Ht & ->).
    pose proof (run_words _ _ _ _ _ Ht) as [_ Wtm].
    assert (Ftm : forall i, lookup_group i ot.2 = lookup_group i o3.2).
    { intros i. eapply run_frame; [exact Ht|]. cbn. tauto. }
    cbn [fst snd lookup_group Nat.eqb]. rewrite !Ftm.
    split; [exact G1|]. split; [exact G2|]. split; [right; auto|]. auto.
  - cbn [fst snd]. split; [exact G1|]. split; [exact G2|].
    split; [left; auto|]. auto.
Qed.

(** ** The date of a key *)

Lemma words_word w x : words false (word x) w <-> w = x.
Proof.
  revert w. induction x as [|k x IH]; intros w; cbn [word words].
  - reflexivity.
  - split.
    + intros (w1 & w2 & -> & (c & -> & Hc) & H2). apply IH in H2. subst w2.
      cbn [atom_ok] in Hc. apply Ascii.eqb_eq in Hc. subst c. reflexivity.
    + intros ->. exists (String k EmptyString), x. split; [reflexivity|].
      split; [|apply IH; reflexivity].
      exists k. split; [reflexivity|]. cbn [atom_ok]. apply Ascii.eqb_refl.
Qed.

Lemma sep_set_1 c :
  existsb (fun a => atom_ok false a c) [Space; chr "-"; chr "."; chr "_"] = true ->
  is_sep c = true.
Proof. destruct c as [[] [] [] [] [] [] [] []]; vm_compute; congruence. Qed.

Lemma sep_set_2 c :
  existsb (fun a => atom_ok false a c) [Space; chr "-"; chr "."] = true ->
  is_sep c = true.
Proof. destruct c as [[] [] [] [] [] [] [] []]; vm_compute; congruence. Qed.

Lemma set_01 c :
  existsb (fun a => atom_ok false a c) [chr "0"; chr "1"] = true ->
  c = "0"%char \/ c = "1"%char.
Proof.
  cbn [existsb chr atom_ok]. rewrite orb_false_r, orb_true_iff, !Ascii.eqb_eq. tauto.
Qed.

Lemma set_0123 c :
  existsb (fun a => atom_ok false a c) [chr "0"; chr "1"; chr "2"; chr "3"] = true ->
  c = "0"%char \/ c = "1"%char \/ c = "2"%char \/ c = "3"%char.
Proof.
  cbn [existsb chr atom_ok]. rewrite orb_false_r, !orb_true_iff, !Ascii.eqb_eq. tauto.
Qed.

(** The words of the date: a century 19 or 20, two digits, at most one
    separator, a month digit 0 or 1 and a digit, at most one separator, a
    day digit 0 to 3 and a digit. *)
Lemma rgx_date_words d :
  words false rgx_date d ->
  exists cc c3 c4 s1 c5 c6 s2 c7 c8,
    d = cc +:+ String c3 (String c4 (s1 +:+ String c5 (String c6
          (s2 +:+ String c7 (String c8 EmptyString))))) /\
    (cc = "19" \/ cc = "20") /\
    Str.is_digit c3 = true /\ Str.is_digit c4 = true /\ sep_or_empty s1 /\
    (c5 = "0"%char \/ c5 = "1"%char) /\ Str.is_digit c6 = true /\
    sep_or_empty s2 /\
    (c7 = "0"%char \/ c7 = "1"%char \/ c7 = "2"%char \/ c7 = "3"%char) /\
    Str.is_digit c8 = true.
Proof.
  unfold rgx_date. cbn [cat words].
  intros (cc & w1 & -> & Hcc & x3 & w2 & -> & (c3 & -> & H3) &
          x4 & w3 & -> & (c4 & -> & H4) & s1 & w4 & -> & Hs1 &
          x5 & w5 & -> & (c5 & -> & H5) & x6 & w6 & -> & (c6 & -> & H6) &
          s2 & w7 & -> & Hs2 & x7 & w8 & -> & (c7 & -> & H7) &
          x8 & w9 & -> & (c8 & -> & H8) & ->).
  exists cc, c3, c4, s1, c5, c6, s2, c7, c8.
  split; [reflexivity|].
  split; [destruct Hcc as [H|H]; apply words_word in H; auto|].
  split; [exact H3|]. split; [exact H4|].
  split.
  { destruct Hs1 as [(c & -> & H)| ->]; [right | left; reflexivity].
    exists c. split; [reflexivity | apply sep_set_1; exact H]. }
  split; [apply set_01; exact H5|]. split; [exact H6|].
  split.
  { destruct Hs2 as [(c & -> & H)| ->]; [right | left; reflexivity].
    exists c. split; [reflexivity | apply sep_set_2; exact H]. }
  split; [apply set_0123; exact H7 | exact H8].
Qed.

Lemma strip_digit c s :
  Str.is_digit c = true ->
  sub_optset_empty separators (String c s) =
  String c (sub_optset_empty separators s).
Proof.
  intros H. cbn [sub_optset_empty]. fold (is_sep c).
  rewrite (digit_not_sep c H). reflexivity.
Qed.

Lemma strip_sep_or_empty s t :
  sep_or_empty s ->
  sub_optset_empty separators (s +:+ t) = sub_optset_empty separators t.
Proof.
  intros [->|(c & -> & H)]; [reflexivity|].
  rewrite append_cons. cbn [sub_optset_empty]. fold (is_sep c). rewrite H.
  reflexivity.
Qed.

(** ** The parser on whole mappings *)

Lemma component_unique tag b1 b2 : component tag b1 -> component tag b2 -> b1 = b2.
Proof. unfold component. intros H1 H2. intuition congruence. Qed.

Lemma variant_unique tag s1 s2 : variant tag s1 -> variant tag s2 -> s1 = s2.
Proof. unfold variant. intros H1 H2. intuition congruence. Qed.

Lemma bucket_of_unique p k1 k2 : bucket_of p k1 -> bucket_of p k2 -> k1 = k2.
Proof.
  intros (b1 & s1 & C1 & V1 & ->) (b2 & s2 & C2 & V2 & ->).
  rewrite (component_unique _ _ _ C1 C2), (variant_unique _ _ _ V1 V2).
  reflexivity.
Qed.

Lemma bucket_of_in_keys p k : bucket_of p k -> In k bucket_keys.
Proof.
  intros (b & s & C & V & ->).
  exact (bucket_name_in_keys unit (fun _ => tt) _ _ _ C V).
Qed.

Section ParserComposition.

Variable F : Type.
Variable nan : F.
Variable literal_value : string -> F.

Local Abbreviation pyvalue := (pyvalue F).
Local Abbreviation buckets := (gmap string (list (Datetime.datetime * F))).
Local Abbreviation loop_body := (loop_body F nan literal_value).
Local Abbreviation loop := (loop F nan literal_value).
Local Abbreviation extract := (extractDateValueAttributes F nan literal_value).
Local Abbreviation init := (d_date_value_init F).
Local Abbreviation float_or_nan := (float_or_nan F nan literal_value).

(** The three things the loop body can do with an item, whatever the
    buckets so far. *)
Lemma loop_body_cases key value :
  (dt_match key = None /\ forall d : buckets, loop_body d (key, value) = Ok d) \/
  (exists p e, dt_match key = Some p /\ timestamp_of p = Raise e /\
     forall d : buckets, loop_body d (key, value) = Raise e) \/
  (exists p ts b, dt_match key = Some p /\ timestamp_of p = Ok ts /\
     bucket_of p b /\
     forall d : buckets,
       loop_body d (key, value) = append_to F d b (ts, float_or_nan value)).
Proof.
  destruct (dt_match key) as [p|] eqn:Hm.
  - destruct (timestamp_of p) as [ts|e] eqn:Ht.
    + right; right.
      destruct (loop_body_matched F nan literal_value ∅ key value p ts Hm Ht)
        as (base & suffix & Hc & Hv & _).
      exists p, ts, (base +:+ suffix). split; [reflexivity|]. split; [exact Ht|].
      split; [exists base, suffix; auto|].
      intros d.
      destruct (loop_body_matched F nan literal_value d key value p ts Hm Ht)
        as (base' & suffix' & Hc' & Hv' & E).
      rewrite (component_unique _ _ _ Hc Hc'), (variant_unique _ _ _ Hv Hv').
      exact E.
    + right; left. exists p, e. split; [reflexivity|]. split; [exact Ht|].
      intros d. apply (loop_body_raises F nan literal_value d key value p e Hm Ht).
  - left. split; [reflexivity|]. intros d.
    apply (loop_body_unmatched F nan literal_value d key value Hm).
Qed.

Lemma in_bucket_keys_dom (d : buckets) b :
  dom d = list_to_set bucket_keys -> In b bucket_keys ->
  exists l, d !! b = Some l.
Proof.
  intros Hd Hb. apply elem_of_dom. rewrite Hd. apply elem_of_list_to_set.
  apply list_elem_of_In. exact Hb.
Qed.

Lemma append_to_six (d : buckets) b x :
  dom d = list_to_set bucket_keys -> In b bucket_keys ->
  append_to F d b x = Ok (<[ b := (bucket d b ++ [x])%list ]> d) /\
  dom (<[ b := (bucket d b ++ [x])%list ]> d) = list_to_set bucket_keys.
Proof.
  intros Hd Hb. destruct (in_bucket_keys_dom d b Hd Hb) as [l Hl].
  unfold append_to, getitem, bucket. rewrite Hl. cbn [bind from_option id].
  split; [reflexivity|].
  rewrite dom_insert_L, Hd. apply elem_of_dom_2 in Hl. rewrite Hd in Hl.
  apply subseteq_union_1_L, singleton_subseteq_l. exact Hl.
Qed.

Lemma bucket_insert (d : buckets) b l k :
  bucket (<[ b := l ]> d) k = if decide (b = k) then l else bucket d k.
Proof.
  unfold bucket. rewrite lookup_insert. destruct (decide (b = k)); reflexivity.
Qed.

Lemma bucket_init k : bucket init k = [].
Proof.
  unfold bucket. destruct (init !! k) as [l|] eqn:E; [|reflexivity].
  unfold d_date_value_init in E. apply elem_of_list_to_map_2 in E.
  apply list_elem_of_In, in_map_iff in E. destruct E as (x & [= _ <-] & _).
  reflexivity.
Qed.

(** The loop from any buckets with the six keys does what it does from the
    empty buckets, after the pairs already there. *)
Lemma loop_from items : forall d : buckets,
  dom d = list_to_set bucket_keys ->
  match loop items init with
  | Raise e => loop items d = Raise e
  | Ok di =>
      exists d', loop items d = Ok d' /\
                 forall k, bucket d' k = (bucket d k ++ bucket di k)%list
  end.
Proof.
  induction items as [|[key value] items IH]; intros d Hd.
  - cbn [loop]. exists d. split; [reflexivity|]. intros k.
    rewrite bucket_init, app_nil_r. reflexivity.
  - cbn [loop].
    destruct (loop_body_cases key value)
      as [[Hm E]|[(p & e & Hm & Ht & E)|(p & ts & b & Hm & Ht & Hb & E)]];
      rewrite !E; cbn [bind].
    + apply IH. exact Hd.
    + reflexivity.
    + apply bucket_of_in_keys in Hb.
      destruct (append_to_six d b (ts, float_or_nan value) Hd Hb) as [-> Hd1].
      destruct (append_to_six init b (ts, float_or_nan value) (dom_init F) Hb)
        as [-> Hi1].
      cbn [bind]. pose proof (IH _ Hd1) as I1. pose proof (IH _ Hi1) as I2.
      destruct (loop items init) as [di|e].
      * destruct I1 as (d1 & -> & B1). destruct I2 as (d2 & -> & B2).
        exists d1. split; [reflexivity|]. intros k.
        rewrite B1, B2, !bucket_insert, !bucket_init.
        destruct (decide (b = k)) as [->|]; [|reflexivity].
        rewrite <- !app_assoc. reflexivity.
      * rewrite I2. exact I1.
Qed.

Lemma merge_lookup (d1 d2 : buckets) k :
  dom d1 = list_to_set bucket_keys -> dom d2 = list_to_set bucket_keys ->
  merge d1 d2 !! k =
  if decide (k ∈ dom d1) then Some (bucket d1 k ++ bucket d2 k)%list else None.
Proof.
  intros H1 H2. unfold merge, bucket. rewrite lookup_union_with.
  destruct (decide (k ∈ dom d1)) as [Hk|Hk].
  - assert (Hk2 : k ∈ dom d2) by (rewrite H2, <- H1; exact Hk).
    apply elem_of_dom in Hk, Hk2. destruct Hk as [l1 ->], Hk2 as [l2 ->].
    reflexivity.
  - assert (Hk2 : k ∉ dom d2) by (rewrite H2, <- H1; exact Hk).
    apply not_elem_of_dom in Hk, Hk2. rewrite Hk, Hk2. reflexivity.
Qed.

Lemma buckets_eq (d1 d2 : buckets) :
  dom d1 = dom d2 -> (forall k, bucket d1 k = bucket d2 k) -> d1 = d2.
Proof.
  intros Hd Hb. apply map_eq. intros k. specialize (Hb k). unfold bucket in Hb.
  destruct (d1 !! k) as [l1|] eqn:E1, (d2 !! k) as [l2|] eqn:E2.
  - cbn in Hb. congruence.
  - apply elem_of_dom_2 in E1. apply not_elem_of_dom in E2. rewrite Hd in E1.
    contradiction.
  - apply elem_of_dom_2 in E2. apply not_elem_of_dom in E1. rewrite Hd in E1.
    contradiction.
  - reflexivity.
Qed.

Lemma bucket_merge (d1 d2 : buckets) k :
  dom d1 = list_to_set bucket_keys -> dom d2 = list_to_set bucket_keys ->
  bucket (merge d1 d2) k = (bucket d1 k ++ bucket d2 k)%list.
Proof.
  intros H1 H2. unfold bucket at 1. rewrite (merge_lookup d1 d2 k H1 H2).
  destruct (decide (k ∈ dom d1)) as [Hk|Hk]; [reflexivity|].
  assert (Hk2 : k ∉ dom d2) by (rewrite H2, <- H1; exact Hk).
  apply not_elem_of_dom in Hk, Hk2. unfold bucket. rewrite Hk, Hk2. reflexivity.
Qed.

Lemma dom_merge (d1 d2 : buckets) :
  dom d1 = list_to_set bucket_keys -> dom d2 = list_to_set bucket_keys ->
  dom (merge d1 d2) = list_to_set bucket_keys.
Proof.
  intros H1 H2. apply set_eq. intros k. rewrite elem_of_dom.
  rewrite (merge_lookup d1 d2 k H1 H2), <- H1.
  destruct (decide (k ∈ dom d1)) as [Hk|Hk]; split; intros H.
  - exact Hk.
  - eexists. reflexivity.
  - destruct H as [x Hx]. discriminate Hx.
  - contradiction.
Qed.

Lemma extract_app_eq (a b : list (string * pyvalue)) :
  extract (a ++ b)%list =
  match extract a with
  | Raise e => Raise e
  | Ok da =>
      match extract b with
      | Raise e => Raise e
      | Ok db => Ok (merge da db)
      end
  end.
Proof.
  unfold extractDateValueAttributes.
  rewrite (loop_app F nan literal_value).
  destruct (loop a init) as [da|e] eqn:Ea; cbn [bind]; [|reflexivity].
  pose proof (loop_dom F nan literal_value _ _ _ Ea) as Hda.
  rewrite (dom_init F) in Hda.
  pose proof (loop_from b da Hda) as H.
  destruct (loop b init) as [db|e] eqn:Eb; [|exact H].
  destruct H as (d' & E & B). rewrite E. f_equal.
  pose proof (loop_dom F nan literal_value _ _ _ Eb) as Hdb.
  rewrite (dom_init F) in Hdb.
  apply buckets_eq.
  - rewrite (dom_merge da db Hda Hdb).
    rewrite (loop_dom F nan literal_value _ _ _ E). exact Hda.
  - intros k. rewrite B, (bucket_merge da db k Hda Hdb). reflexivity.
Qed.

Lemma extract_dom attributes (d : buckets) :
  extract attributes = Ok d -> dom d = list_to_set bucket_keys.
Proof.
  unfold extractDateValueAttributes. intros H.
  rewrite (loop_dom F nan literal_value _ _ _ H). apply dom_init.
Qed.

(** The parser on one item. *)
Lemma extract_one key value :
  (dt_match key = None /\ extract [(key, value)] = Ok init) \/
  (exists p e, dt_match key = Some p /\ timestamp_of p = Raise e /\
     extract [(key, value)] = Raise e) \/
  (exists p ts b, dt_match key = Some p /\ timestamp_of p = Ok ts /\
     bucket_of p b /\
     extract [(key, value)] =
       Ok (<[ b := [(ts, float_or_nan value)] ]> init)).
Proof.
  unfold extractDateValueAttributes. cbn [loop].
  destruct (loop_body_cases key value)
    as [[Hm E]|[(p & e & Hm & Ht & E)|(p & ts & b & Hm & Ht & Hb & E)]];
    rewrite E.
  - left. auto.
  - right; left. exists p, e. auto.
  - right; right. exists p, ts, b. split; [exact Hm|]. split; [exact Ht|].
    split; [exact Hb|].
    destruct (append_to_six init b (ts, float_or_nan value) (dom_init F)
                (bucket_of_in_keys _ _ Hb)) as [-> _].
    rewrite bucket_init. reflexivity.
Qed.

Lemma extract_cons key value items :
  extract ((key, value) :: items) =
  match extract [(key, value)] with
  | Raise e => Raise e
  | Ok dx =>
      match extract items with
      | Raise e => Raise e
      | Ok d => Ok (merge dx d)
      end
  end.
Proof. apply (extract_app_eq [(key, value)] items). Qed.

(** X1.  The parser on two mappings one after the other: the exception of
    the first mapping, else that of the second, else the buckets of the
    first followed, bucket by bucket, by those of the second; every bucket
    of the result is the two buckets one after the other. *)
Theorem extract_app (a b : list (string * pyvalue)) :
  extract (a ++ b)%list =
  match extract a with
  | Raise e => Raise e
  | Ok da =>
      match extract b with
      | Raise e => Raise e
      | Ok db => Ok (merge da db)
      end
  end /\
  (forall da db k,
     extract a = Ok da -> extract b = Ok db ->
     bucket (merge da db) k = (bucket da k ++ bucket db k)%list /\
     dom (merge da db) = list_to_set bucket_keys).
Proof.
  split; [apply extract_app_eq|].
  intros da db k Ha Hb.
  pose proof (extract_dom _ _ Ha) as Hda. pose proof (extract_dom _ _ Hb) as Hdb.
  split; [apply bucket_merge | apply dom_merge]; assumption.
Qed.

Lemma extract_ok_cons key value items :
  (exists d, extract ((key, value) :: items) = Ok d) <->
  (exists dx, extract [(key, value)] = Ok dx) /\ (exists d, extract items = Ok d).
Proof.
  rewrite extract_cons.
  destruct (extract [(key, value)]) as [dx|e], (extract items) as [d|e'];
    split; try (intros [? [=]]); try (intros [[? [=]] [? [=]]]); eauto.
Qed.

Lemma extract_one_ok key value :
  (exists dx, extract [(key, value)] = Ok dx) <->
  (forall p, dt_match key = Some p -> exists ts, timestamp_of p = Ok ts).
Proof.
  destruct (extract_one key value)
    as [[Hm E]|[(p & e & Hm & Ht & E)|(p & ts & b & Hm & Ht & Hb & E)]];
    rewrite E, Hm.
  - split; [intros _ p [=] | eauto].
  - split; [intros [? [=]]|]. intros H. destruct (H p eq_refl) as [ts Hts].
    congruence.
  - split; [|eauto]. intros _ p' [= <-]. eauto.
Qed.

(** X2.  The parser succeeds exactly when the timestamp of every key that
    matches parses; it raises [e] exactly when the first key whose
    timestamp does not parse raises [e]. *)
Theorem extract_succeeds_iff (attributes : list (string * pyvalue)) :
  ((exists d, extract attributes = Ok d) <->
   (forall key value p,
      In (key, value) attributes -> dt_match key = Some p ->
      exists ts, timestamp_of p = Ok ts)) /\
  (forall e,
     extract attributes = Raise e <->
     exists pre key value post p,
       attributes = (pre ++ (key, value) :: post)%list /\
       (exists d, extract pre = Ok d) /\
       dt_match key = Some p /\ timestamp_of p = Raise e).
Proof.
  split.
  - induction attributes as [|[key value] items IH].
    + split; [intros _ ? ? ? [] | intros _; exists init; reflexivity].
    + rewrite extract_ok_cons, extract_one_ok, IH. split.
      * intros [H1 H2] k v p [[= <- <-]|Hin] Hm; [apply H1 | eapply H2]; eassumption.
      * intros H. split.
        -- intros p Hm. apply (H key value p); [left; reflexivity | exact Hm].
        -- intros k v p Hin Hm. apply (H k v p); [right; exact Hin | exact Hm].
  - induction attributes as [|[key value] items IH]; intros e.
    + split; [discriminate|].
      intros (pre & k & v & post & p & E & _). destruct pre; discriminate E.
    + rewrite extract_cons. split.
      * destruct (extract_one key value)
          as [[Hm E]|[(p & e' & Hm & Ht & E)|(p & ts & b & Hm & Ht & Hb & E)]];
          rewrite E.
        -- destruct (extract items) as [d|e'] eqn:Ei; [discriminate|].
           intros [= ->]. destruct (proj1 (IH e) eq_refl)
             as (pre & k & v & post & p & -> & [dp Hp] & Hm' & Ht').
           exists ((key, value) :: pre), k, v, post, p. split; [reflexivity|].
           split; [|auto]. rewrite extract_cons, E, Hp. eauto.
        -- intros [= ->]. exists [], key, value, items, p.
           split; [reflexivity|]. split; [exists init; reflexivity | auto].
        -- destruct (extract items) as [d|e'] eqn:Ei; [discriminate|].
           intros [= ->]. destruct (proj1 (IH e) eq_refl)
             as (pre & k & v & post & p' & -> & [dp Hp] & Hm' & Ht').
           exists ((key, value) :: pre), k, v, post, p'. split; [reflexivity|].
           split; [|auto]. rewrite extract_cons, E, Hp. eauto.
      * intros (pre & k & v & post & p & E & [dp Hp] & Hm & Ht).
        destruct pre as [|x pre]; cbn [app] in E; inversion E; subst; clear E.
        -- destruct (extract_one k v)
             as [[Hm' _]|[(p' & e' & Hm' & Ht' & ->)|(p' & ts & b & Hm' & Ht' & _)]];
             congruence.
        -- destruct (proj1 (extract_ok_cons key value pre) (ex_intro _ dp Hp))
             as [[dx Hx] Hpre].
           rewrite Hx.
           assert (Hr : extract (pre ++ (k, v) :: post)%list = Raise e).
           { apply IH. exists pre, k, v, post, p. auto. }
           rewrite Hr. reflexivity.
Qed.

Lemma bucket_single (b k : string) (pair : Datetime.datetime * F) :
  bucket (<[ b := [pair] ]> init) k = if decide (b = k) then [pair] else [].
Proof. rewrite bucket_insert, bucket_init. reflexivity. Qed.

Lemma extract_pairs_iff (attributes : list (string * pyvalue)) (d : buckets) :
  extract attributes = Ok d ->
  forall k ts x,
    In (ts, x) (bucket d k) <->
    exists key value p,
      In (key, value) attributes /\ dt_match key = Some p /\
      timestamp_of p = Ok ts /\ bucket_of p k /\ x = float_or_nan value.
Proof.
  revert d. induction attributes as [|[key value] items IH]; intros d.
  - intros [= <-] k ts x. rewrite bucket_init. split; [intros [] |].
    intros (? & ? & ? & [] & _).
  - rewrite extract_cons.
    destruct (extract [(key, value)]) as [dx|e] eqn:Ex; [|discriminate].
    destruct (extract items) as [di|e] eqn:Ei; [|discriminate].
    intros [= <-] k ts x.
    rewrite (bucket_merge dx di k (extract_dom _ _ Ex) (extract_dom _ _ Ei)).
    rewrite in_app_iff, (IH di eq_refl k ts x).
    destruct (extract_one key value)
      as [[Hm E]|[(p & e & Hm & Ht & E)|(p & ts0 & b & Hm & Ht & Hb & E)]];
      rewrite E in Ex; [| discriminate |]; injection Ex as <-.
    + rewrite bucket_init. split.
      * intros [[]|(k' & v' & p & Hin & H)]. exists k', v', p.
        split; [right; exact Hin | exact H].
      * intros (k' & v' & p & [[= <- <-]|Hin] & Hm' & H'); [congruence|].
        right. exists k', v', p. auto.
    + rewrite bucket_single. split.
      * intros [H0|(k' & v' & p' & Hin & H0)].
        -- destruct (decide (b = k)) as [->|]; [|destruct H0].
           destruct H0 as [[= <- <-]|[]]. exists key, value, p.
           split; [left; reflexivity | auto].
        -- exists k', v', p'. split; [right; exact Hin | exact H0].
      * intros (k' & v' & p' & [[= <- <-]|Hin] & Hm' & Ht' & Hb' & ->).
        -- left. assert (p' = p) by congruence. subst p'.
           rewrite (bucket_of_unique _ _ _ Hb Hb').
           destruct (decide (k = k)); [|contradiction].
           left. congruence.
        -- right. exists k', v', p'. auto.
Qed.

(** X3.  The buckets of a result hold exactly the pairs of the keys that
    match: a pair is in a bucket exactly when some item of the mapping has
    a key that matches, with that timestamp, that bucket for its tag, and
    that value after coercion. *)
Theorem extract_pairs (attributes : list (string * pyvalue)) (d : buckets) :
  extract attributes = Ok d ->
  forall k ts x,
    In (ts, x) (bucket d k) <->
    exists key value p,
      In (key, value) attributes /\ dt_match key = Some p /\
      timestamp_of p = Ok ts /\ bucket_of p k /\ x = float_or_nan value.
Proof. apply extract_pairs_iff. Qed.

End ParserComposition.

(** ** The timestamps the parser records *)

Lemma digit_val_digit c :
  Str.is_digit c = true ->
  exists v, Datetime.digit_val c = Some v /\ v <= 9.
Proof.
  intros H. unfold Datetime.digit_val. rewrite H. eexists. split; [reflexivity|].
  unfold Str.is_digit, Str.between in H. apply andb_true_iff in H.
  rewrite !N.leb_le in H. lia.
Qed.

Lemma read_fields_year fmt : forall s t ts,
  Datetime.read_fields fmt s t = Some ts -> ~ In Datetime.dY fmt ->
  Datetime.year ts = Datetime.year t.
Proof.
  induction fmt as [|f fmt IH]; intros s t ts; cbn [Datetime.read_fields].
  - destruct (Str.is_empty s); [|discriminate]. intros [= <-] _. reflexivity.
  - destruct (Datetime.read_int _ _ _) as [[v s']|]; [|discriminate].
    intros H Hn. rewrite (IH _ _ _ H) by (intros Hi; apply Hn; right; exact Hi).
    destruct f; try reflexivity. destruct Hn. left. reflexivity.
Qed.

(** The year [strptime] reads from a text that starts with a century 19 or
    20 and two digits. *)
Lemma strptime_year cc c3 c4 s fmt ts :
  cc = "19" \/ cc = "20" ->
  Str.is_digit c3 = true -> Str.is_digit c4 = true ->
  ~ In Datetime.dY fmt ->
  Datetime.strptime (cc +:+ String c3 (String c4 s)) (Datetime.dY :: fmt) = Ok ts ->
  1900 <= Datetime.year ts <= 2099 /\ Datetime.valid ts = true.
Proof.
  intros Hcc H3 H4 Hn. unfold Datetime.strptime.
  destruct (Datetime.read_fields _ _ _) as [t|] eqn:E; [|discriminate].
  destruct (Datetime.valid t) eqn:V; [|discriminate]. intros [= <-].
  split; [|exact V].
  destruct (digit_val_digit c3 H3) as (v3 & E3 & L3).
  destruct (digit_val_digit c4 H4) as (v4 & E4 & L4).
  cbn [Datetime.read_fields Datetime.width] in E.
  destruct Hcc as [-> | ->];
    rewrite !append_cons, append_nil_l in E;
    cbn [Datetime.read_int] in E;
    change (Datetime.digit_val "1") with (Some 1) in E;
    change (Datetime.digit_val "9") with (Some 9) in E;
    change (Datetime.digit_val "2") with (Some 2) in E;
    change (Datetime.digit_val "0") with (Some 0) in E;
    rewrite E3, E4 in E;
    apply read_fields_year in E; [|exact Hn| |exact Hn];
    rewrite E; cbn [Datetime.set_field Datetime.year]; lia.
Qed.

Lemma d_dt_fmt_cases n fmt :
  getitem d_dt_fmt n = Ok fmt ->
  exists rest, fmt = Datetime.dY :: rest /\ ~ In Datetime.dY rest.
Proof.
  unfold getitem, d_dt_fmt.
  destruct (decide (n = 8)) as [->|N8].
  { rewrite lookup_insert_eq. intros [= <-]. eexists. split; [reflexivity|].
    cbn. intuition discriminate. }
  rewrite lookup_insert_ne by congruence.
  destruct (decide (n = 12)) as [->|N12].
  { rewrite lookup_insert_eq. intros [= <-]. eexists. split; [reflexivity|].
    cbn. intuition discriminate. }
  rewrite lookup_insert_ne by congruence.
  destruct (decide (n = 14)) as [->|N14].
  { rewrite lookup_insert_eq. intros [= <-]. eexists. split; [reflexivity|].
    cbn. intuition discriminate. }
  rewrite lookup_insert_ne by congruence. rewrite lookup_empty. discriminate.
Qed.

(** The groups of the match of a key: the date is a word of the date, and
    the time is a word of the time or is unset. *)
Lemma dt_match_groups key p :
  dt_match key = Some p ->
  exists a d tm b rest,
    Str.lower key = a +:+ d +:+ tm +:+ b +:+ rest /\
    no_newline a = true /\ words false rgx_date d /\
    group p 1 = Some a /\ group p 2 = Some d /\
    ((tm = EmptyString /\ group p 4 = None) \/
     (words false rgx_time tm /\ group p 4 = Some tm)) /\
    group p 5 = Some b.
Proof.
  unfold dt_match, re_match, group.
  destruct (run false rgx_dt (Str.lower key) []) as [|o os] eqn:E; [discriminate|].
  intros [= <-].
  assert (Hin : In o (run false rgx_dt (Str.lower key) []))
    by (rewrite E; left; reflexivity).
  destruct (rgx_dt_outcome _ _ _ Hin)
    as (a & d & t & tm & b & Es & La & Wd & Wt & G1 & G2 & G4 & G5 & Lb).
  assert (t = EmptyString).
  { destruct Wt as [(c & -> & Hc)| ->]; [|reflexivity].
    exfalso. cbn [chr atom_ok] in Hc. apply Ascii.eqb_eq in Hc. subst c.
    pose proof (lower_has_no_T key) as HT. rewrite Es in HT.
    assert (HT' : Str.contains "T" (a +:+ d +:+ String "T" EmptyString +:+ tm +:+ b +:+ o.1.2) = true).
    { apply contains_iff. exists (a +:+ d), (tm +:+ b +:+ o.1.2).
      rewrite !app_assoc_str. reflexivity. }
    congruence. }
  subst t. exists a, d, tm, b, o.1.2. auto 10.
Qed.

Lemma datetime_str_of_groups p d tm :
  group p 2 = Some d ->
  (tm = EmptyString /\ group p 4 = None) \/ group p 4 = Some tm ->
  datetime_str_of p =
  sub_optset_empty separators d +:+ sub_optset_empty separators tm.
Proof.
  intros G2 G4. unfold datetime_str_of. rewrite G2.
  destruct G4 as [[-> ->]| ->]; cbn [from_option id]; apply strip_app.
Qed.

Lemma strip_date cc c3 c4 s1 c5 c6 s2 c7 c8 :
  cc = "19" \/ cc = "20" ->
  Str.is_digit c3 = true -> Str.is_digit c4 = true -> sep_or_empty s1 ->
  Str.is_digit c5 = true -> Str.is_digit c6 = true -> sep_or_empty s2 ->
  Str.is_digit c7 = true -> Str.is_digit c8 = true ->
  sub_optset_empty separators
    (cc +:+ String c3 (String c4 (s1 +:+ String c5 (String c6
       (s2 +:+ String c7 (String c8 EmptyString)))))) =
  cc +:+ String c3 (String c4 (String c5 (String c6
          (String c7 (String c8 EmptyString))))).
Proof.
  intros Hcc H3 H4 Hs1 H5 H6 Hs2 H7 H8.
  rewrite strip_app.
  replace (sub_optset_empty separators cc) with cc
    by (destruct Hcc as [-> | ->]; reflexivity).
  rewrite !strip_digit by assumption. rewrite (strip_sep_or_empty _ _ Hs1).
  rewrite !strip_digit by assumption. rewrite (strip_sep_or_empty _ _ Hs2).
  rewrite !strip_digit by assumption. reflexivity.
Qed.

Lemma digit_01 c : c = "0"%char \/ c = "1"%char -> Str.is_digit c = true.
Proof. intros [-> | ->]; reflexivity. Qed.

Lemma digit_0123 c :
  c = "0"%char \/ c = "1"%char \/ c = "2"%char \/ c = "3"%char ->
  Str.is_digit c = true.
Proof. intros [-> | [-> | [-> | ->]]]; reflexivity. Qed.

(** The timestamp of a key lies in the years 1900 to 2099 and is a date
    and time of the calendar. *)
Lemma timestamp_range key p ts :
  dt_match key = Some p -> timestamp_of p = Ok ts ->
  1900 <= Datetime.year ts <= 2099 /\ Datetime.valid ts = true.
Proof.
  intros Hm Ht.
  destruct (dt_match_groups key p Hm)
    as (a & d & tm & b & rest & _ & _ & Wd & _ & G2 & G4 & _).
  destruct (rgx_date_words d Wd)
    as (cc & c3 & c4 & s1 & c5 & c6 & s2 & c7 & c8 &
        -> & Hcc & H3 & H4 & Hs1 & H5 & H6 & Hs2 & H7 & H8).
  unfold timestamp_of in Ht.
  rewrite (datetime_str_of_groups p _ tm G2) in Ht by tauto.
  rewrite (strip_date cc c3 c4 s1 c5 c6 s2 c7 c8) in Ht
    by (auto using digit_01, digit_0123).
  destruct (getitem d_dt_fmt _) as [fmt|e] eqn:Ef; [|discriminate].
  cbn [bind] in Ht.
  destruct (d_dt_fmt_cases _ _ Ef) as (fmt' & -> & Hn).
  rewrite app_assoc_str, !append_cons in Ht.
  eapply strptime_year; [exact Hcc | exact H3 | exact H4 | exact Hn | exact Ht].
Qed.

(** ** Keys that hold one date *)

Lemma ndigits_app (a b : string) : ndigits (a +:+ b) = ndigits a + ndigits b.
Proof.
  induction a as [|c a IH]; [reflexivity|].
  rewrite append_cons. cbn [ndigits]. rewrite IH. lia.
Qed.

Lemma ndigits_lower s : ndigits (Str.lower s) = ndigits s.
Proof.
  induction s as [|c s IH]; [reflexivity|].
  cbn [Str.lower ndigits]. rewrite is_digit_lower, IH. reflexivity.
Qed.

Lemma ndigits_sep_or_empty s : sep_or_empty s -> ndigits s = 0.
Proof.
  intros [->|(c & -> & H)]; [reflexivity|]. cbn [ndigits].
  destruct (Str.is_digit c) eqn:E; [|reflexivity].
  rewrite (digit_not_sep c E) in H. discriminate.
Qed.

(** A text without digits followed by a digit: the split is at the first
    digit. *)
Lemma split_at_first_digit : forall (a p : string) c x k y,
  ndigits a = 0 -> ndigits p = 0 ->
  Str.is_digit c = true -> Str.is_digit k = true ->
  a +:+ String c x = p +:+ String k y -> a = p /\ String c x = String k y.
Proof.
  induction a as [|a0 a IH]; intros p c x k y Ha Hp Hc Hk E.
  - destruct p as [|p0 p]; [auto|].
    rewrite append_nil_l, append_cons in E. injection E as -> _.
    cbn [ndigits] in Hp. rewrite Hc in Hp. discriminate.
  - destruct p as [|p0 p].
    + rewrite append_nil_l, append_cons in E. injection E as -> _.
      cbn [ndigits] in Ha. rewrite Hk in Ha. discriminate.
    + rewrite !append_cons in E. injection E as -> E.
      cbn [ndigits] in Ha, Hp.
      destruct (IH p c x k y) as [-> E']; try assumption; try lia.
      auto.
Qed.

Lemma digit_char_digit n : n <= 9 -> Str.is_digit (digit_char n) = true.
Proof.
  intros H. do 10 (destruct n as [|n]; [reflexivity|]). lia.
Qed.

Lemma digit_val_char n : n <= 9 -> Datetime.digit_val (digit_char n) = Some n.
Proof.
  intros H. do 10 (destruct n as [|n]; [reflexivity|]). lia.
Qed.

(** The words of the date without separators. *)
Lemma rgx_date_plain cc c3 c4 c5 c6 c7 c8 :
  cc = "19" \/ cc = "20" ->
  Str.is_digit c3 = true -> Str.is_digit c4 = true ->
  c5 = "0"%char \/ c5 = "1"%char -> Str.is_digit c6 = true ->
  c7 = "0"%char \/ c7 = "1"%char \/ c7 = "2"%char \/ c7 = "3"%char ->
  Str.is_digit c8 = true ->
  words false rgx_date
    (cc +:+ String c3 (String c4 (String c5 (String c6
       (String c7 (String c8 EmptyString)))))).
Proof.
  intros Hcc H3 H4 H5 H6 H7 H8. unfold rgx_date. cbn [cat words].
  exists cc, (String c3 (String c4 (String c5 (String c6
               (String c7 (String c8 EmptyString)))))).
  split; [reflexivity|].
  split; [destruct Hcc as [-> | ->]; [left | right]; apply words_word; reflexivity|].
  exists (String c3 EmptyString), (String c4 (String c5 (String c6
               (String c7 (String c8 EmptyString))))).
  split; [reflexivity|]. split; [exists c3; auto|].
  exists (String c4 EmptyString), (String c5 (String c6
               (String c7 (String c8 EmptyString)))).
  split; [reflexivity|]. split; [exists c4; auto|].
  exists EmptyString, (String c5 (String c6 (String c7 (String c8 EmptyString)))).
  split; [reflexivity|]. split; [right; reflexivity|].
  exists (String c5 EmptyString), (String c6 (String c7 (String c8 EmptyString))).
  split; [reflexivity|].
  split; [exists c5; split; [reflexivity|]; destruct H5 as [-> | ->]; reflexivity|].
  exists (String c6 EmptyString), (String c7 (String c8 EmptyString)).
  split; [reflexivity|]. split; [exists c6; auto|].
  exists EmptyString, (String c7 (String c8 EmptyString)).
  split; [reflexivity|]. split; [right; reflexivity|].
  exists (String c7 EmptyString), (String c8 EmptyString).
  split; [reflexivity|].
  split; [exists c7; split; [reflexivity|];
          destruct H7 as [-> | [-> | [-> | ->]]]; reflexivity|].
  exists (String c8 EmptyString), EmptyString.
  split; [reflexivity|]. split; [exists c8; auto | reflexivity].
Qed.

(** A word of the date in front of eight digits is those eight digits. *)
Lemma date_word_is_digits d r k1 k2 k3 k4 k5 k6 k7 k8 q :
  words false rgx_date d ->
  Str.is_digit k5 = true -> Str.is_digit k7 = true ->
  d +:+ r = String k1 (String k2 (String k3 (String k4 (String k5
              (String k6 (String k7 (String k8 q))))))) ->
  d = String k1 (String k2 (String k3 (String k4 (String k5
        (String k6 (String k7 (String k8 EmptyString))))))) /\ r = q.
Proof.
  intros Wd K5 K7 E.
  destruct (rgx_date_words d Wd)
    as (cc & c3 & c4 & s1 & c5 & c6 & s2 & c7 & c8 &
        -> & Hcc & H3 & H4 & Hs1 & H5 & H6 & Hs2 & H7 & H8).
  assert (Hcc' : exists a b, cc = String a (String b EmptyString))
    by (destruct Hcc as [-> | ->]; eauto).
  destruct Hcc' as (a & b & ->).
  rewrite !append_cons, append_nil_l, !append_cons in E.
  injection E as -> -> -> -> E.
  assert (s1 = EmptyString).
  { destruct Hs1 as [->|(c & -> & Hc)]; [reflexivity|].
    rewrite !append_cons in E. injection E as -> _.
    rewrite (digit_not_sep _ K5) in Hc. discriminate. }
  subst s1. rewrite append_nil_l, !append_cons in E.
  injection E as -> -> E.
  assert (s2 = EmptyString).
  { destruct Hs2 as [->|(c & -> & Hc)]; [reflexivity|].
    rewrite !append_cons in E. injection E as -> _.
    rewrite (digit_not_sep _ K7) in Hc. discriminate. }
  subst s2. rewrite append_nil_l, !append_cons, append_nil_l in E.
  injection E as -> -> ->. split; reflexivity.
Qed.

Lemma ndigits_date d : words false rgx_date d -> ndigits d = 8.
Proof.
  intros Wd.
  destruct (rgx_date_words d Wd)
    as (cc & c3 & c4 & s1 & c5 & c6 & s2 & c7 & c8 &
        -> & Hcc & H3 & H4 & Hs1 & H5 & H6 & Hs2 & H7 & H8).
  apply digit_01 in H5. apply digit_0123 in H7.
  rewrite ndigits_app. cbn [ndigits]. rewrite ndigits_app. cbn [ndigits].
  rewrite ndigits_app. cbn [ndigits].
  rewrite H3, H4, H5, H6, H7, H8.
  rewrite (ndigits_sep_or_empty _ Hs1), (ndigits_sep_or_empty _ Hs2).
  destruct Hcc as [-> | ->]; reflexivity.
Qed.

Lemma rgx_date_starts d :
  words false rgx_date d ->
  exists c x, d = String c x /\ Str.is_digit c = true.
Proof.
  intros Wd.
  destruct (rgx_date_words d Wd)
    as (cc & c3 & c4 & s1 & c5 & c6 & s2 & c7 & c8 & -> & Hcc & _).
  destruct Hcc as [-> | ->]; eexists _, _; (split; [reflexivity|]); reflexivity.
Qed.

Lemma rgx_time_digit tm : words false rgx_time tm -> 1 <= ndigits tm.
Proof.
  unfold rgx_time. cbn [cat words].
  intros (w1 & w2 & -> & (c & -> & Hc) & _).
  rewrite append_cons. cbn [ndigits].
  assert (Str.is_digit c = true).
  { cbn [existsb chr atom_ok] in Hc. rewrite orb_false_r, !orb_true_iff, !Ascii.eqb_eq in Hc.
    destruct Hc as [-> | [-> | ->]]; reflexivity. }
  rewrite H. lia.
Qed.

Lemma date_key_chars y m d :
  date_key y m d =
  String (digit_char (y / 100 / 10)) (String (digit_char (y / 100 mod 10))
  (String (digit_char (y mod 100 / 10)) (String (digit_char (y mod 100 mod 10))
  (String (digit_char (m / 10)) (String (digit_char (m mod 10))
  (String (digit_char (d / 10)) (String (digit_char (d mod 10))
    EmptyString))))))).
Proof. reflexivity. Qed.

Lemma mod10_le n : n mod 10 <= 9.
Proof. pose proof (Nat.mod_upper_bound n 10). lia. Qed.

Lemma div10_le n : n <= 99 -> n / 10 <= 9.
Proof.
  intros H. assert (n / 10 < 10); [|lia].
  apply Nat.Div0.div_lt_upper_bound. lia.
Qed.

Lemma mod100_le n : n mod 100 <= 99.
Proof. pose proof (Nat.mod_upper_bound n 100). lia. Qed.

Lemma ndigits_date_key y m d :
  y / 100 <= 99 -> m <= 99 -> d <= 99 -> ndigits (date_key y m d) = 8.
Proof.
  intros Hy Hm Hd. rewrite date_key_chars. cbn [ndigits].
  rewrite !digit_char_digit; [reflexivity | ..];
    try apply mod10_le; apply div10_le; try assumption; apply mod100_le.
Qed.

Lemma div_mod_100 y : y = 100 * (y / 100) + y mod 100 /\ y mod 100 < 100.
Proof.
  split; [apply Nat.div_mod_eq | apply Nat.mod_upper_bound; discriminate].
Qed.

Lemma div_mod_10 n : n = 10 * (n / 10) + n mod 10 /\ n mod 10 < 10.
Proof.
  split; [apply Nat.div_mod_eq | apply Nat.mod_upper_bound; discriminate].
Qed.

Lemma century y : 1900 <= y <= 2099 -> y / 100 = 19 \/ y / 100 = 20.
Proof. intros H. pose proof (div_mod_100 y). lia. Qed.

Lemma two_digits_century y :
  1900 <= y <= 2099 ->
  two_digits (y / 100) = "19" \/ two_digits (y / 100) = "20".
Proof. intros H. destruct (century y H) as [-> | ->]; auto. Qed.

Lemma digit_char_01 n :
  n <= 1 -> digit_char n = "0"%char \/ digit_char n = "1"%char.
Proof. intros H. do 2 (destruct n as [|n]; [auto|]). lia. Qed.

Lemma digit_char_0123 n :
  n <= 3 ->
  digit_char n = "0"%char \/ digit_char n = "1"%char \/
  digit_char n = "2"%char \/ digit_char n = "3"%char.
Proof. intros H. do 4 (destruct n as [|n]; [auto|]). lia. Qed.

Lemma date_key_century y m d :
  date_key y m d =
  two_digits (y / 100) +:+
  String (digit_char (y mod 100 / 10)) (String (digit_char (y mod 100 mod 10))
  (String (digit_char (m / 10)) (String (digit_char (m mod 10))
  (String (digit_char (d / 10)) (String (digit_char (d mod 10))
    EmptyString))))).
Proof. reflexivity. Qed.

(** A date of the years 1900 to 2099 is a word of the date. *)
Lemma date_key_words y m d :
  1900 <= y <= 2099 -> m <= 19 -> d <= 39 ->
  words false rgx_date (date_key y m d).
Proof.
  intros Hy Hm Hd. rewrite date_key_century.
  pose proof (div_mod_10 m). pose proof (div_mod_10 d).
  apply rgx_date_plain.
  - apply two_digits_century, Hy.
  - apply digit_char_digit, div10_le, mod100_le.
  - apply digit_char_digit, mod10_le.
  - apply digit_char_01. lia.
  - apply digit_char_digit, mod10_le.
  - apply digit_char_0123. lia.
  - apply digit_char_digit, mod10_le.
Qed.

Lemma lower_digit c : Str.is_digit c = true -> Str.char_lower c = c.
Proof.
  intros H. apply char_lower_below.
  unfold Str.is_digit, Str.between in H. apply andb_true_iff in H.
  rewrite !N.leb_le in H. lia.
Qed.

Lemma lower_date_key y m d :
  y / 100 <= 99 -> m <= 99 -> d <= 99 ->
  Str.lower (date_key y m d) = date_key y m d.
Proof.
  intros Hy Hm Hd. rewrite date_key_chars. cbn [Str.lower].
  rewrite !lower_digit; [reflexivity | ..]; apply digit_char_digit;
    try apply mod10_le; apply div10_le; try assumption; apply mod100_le.
Qed.

Lemma strip_date_key y m d :
  y / 100 <= 99 -> m <= 99 -> d <= 99 ->
  sub_optset_empty separators (date_key y m d) = date_key y m d.
Proof.
  intros Hy Hm Hd. rewrite date_key_chars.
  rewrite !strip_digit; [reflexivity | ..]; apply digit_char_digit;
    try apply mod10_le; apply div10_le; try assumption; apply mod100_le.
Qed.

(** [strptime] reads a date back from its digits. *)
Lemma strptime_date_key y m d :
  y / 100 <= 99 -> m <= 99 -> d <= 99 ->
  Datetime.strptime (date_key y m d) [Datetime.dY; Datetime.dm; Datetime.dd] =
  if Datetime.valid (Datetime.mk_datetime y m d 0 0 0)
  then Ok (Datetime.mk_datetime y m d 0 0 0) else Raise ValueError.
Proof.
  intros Hy Hm Hd. rewrite date_key_chars. unfold Datetime.strptime.
  cbn [Datetime.read_fields Datetime.width Datetime.read_int].
  rewrite (digit_val_char (y / 100 / 10)) by (apply div10_le, Hy).
  rewrite (digit_val_char (y / 100 mod 10)) by apply mod10_le.
  rewrite (digit_val_char (y mod 100 / 10)) by (apply div10_le, mod100_le).
  rewrite (digit_val_char (y mod 100 mod 10)) by apply mod10_le.
  rewrite (digit_val_char (m / 10)) by (apply div10_le, Hm).
  rewrite (digit_val_char (m mod 10)) by apply mod10_le.
  rewrite (digit_val_char (d / 10)) by (apply div10_le, Hd).
  rewrite (digit_val_char (d mod 10)) by apply mod10_le.
  cbn [Str.is_empty Datetime.set_field Datetime.year Datetime.month
       Datetime.day Datetime.hour Datetime.minute Datetime.second].
  replace (10 * (10 * (10 * (10 * 0 + y / 100 / 10) + y / 100 mod 10) +
                 y mod 100 / 10) + y mod 100 mod 10) with y.
  2:{ pose proof (div_mod_100 y). pose proof (div_mod_10 (y / 100)).
      pose proof (div_mod_10 (y mod 100)). lia. }
  replace (10 * (10 * 0 + m / 10) + m mod 10) with m
    by (pose proof (div_mod_10 m); lia).
  replace (10 * (10 * 0 + d / 10) + d mod 10) with d
    by (pose proof (div_mod_10 d); lia).
  reflexivity.
Qed.

Lemma length_date_key y m d : String.length (date_key y m d) = 8.
Proof. reflexivity. Qed.

(** A key that holds one date between texts without digits matches. *)
Lemma one_date_matches P Q y m d :
  1900 <= y <= 2099 -> m <= 19 -> d <= 39 -> no_newline P = true ->
  dt_key (P +:+ date_key y m d +:+ Q).
Proof.
  intros Hy Hm Hd HP. unfold dt_key, dt_match. apply rgx_dt_match_iff.
  exists (Str.lower P), (date_key y m d), (Str.lower Q).
  rewrite !lower_app, lower_date_key, no_newline_lower; try lia.
  - split; [reflexivity|]. split; [exact HP|].
    apply date_key_words; assumption.
  - destruct (century y Hy) as [-> | ->]; lia.
Qed.

(** The groups of the match of such a key: the text before, the date, no
    time, and a text after it. *)
Lemma one_date_groups P Q y m d p :
  1900 <= y <= 2099 -> m <= 19 -> d <= 39 ->
  ndigits P = 0 -> ndigits Q = 0 ->
  dt_match (P +:+ date_key y m d +:+ Q) = Some p ->
  group p 1 = Some (Str.lower P) /\ group p 2 = Some (date_key y m d) /\
  group p 4 = None /\
  exists b rest, group p 5 = Some b /\ Str.lower Q = b +:+ rest.
Proof.
  intros Hy Hm Hd HP HQ Hp.
  assert (Hc : y / 100 <= 99) by (destruct (century y Hy) as [-> | ->]; lia).
  destruct (dt_match_groups _ p Hp)
    as (a & dd & tm & b & rest & E & _ & Wd & G1 & G2 & G4 & G5).
  rewrite !lower_app, lower_date_key in E by lia.
  assert (N : ndigits a = 0 /\ ndigits tm = 0).
  { apply (f_equal ndigits) in E. rewrite !ndigits_app, !ndigits_lower in E.
    rewrite ndigits_date_key in E by lia. rewrite (ndigits_date dd Wd) in E.
    lia. }
  destruct N as [Na Ntm].
  destruct (rgx_date_starts dd Wd) as (c & x & Edd & Dc).
  assert (E' : a +:+ String c (x +:+ tm +:+ b +:+ rest) =
               Str.lower P +:+ date_key y m d +:+ Str.lower Q).
  { rewrite E, Edd, append_cons. reflexivity. }
  rewrite date_key_chars, append_cons in E'.
  apply split_at_first_digit in E';
    [| exact Na | rewrite ndigits_lower; exact HP | exact Dc
     | apply digit_char_digit, div10_le, Hc].
  destruct E' as [-> E'].
  rewrite <- append_cons, <- Edd, !append_cons, append_nil_l in E'.
  apply date_word_is_digits in E';
    [| exact Wd | apply digit_char_digit, div10_le; lia
     | apply digit_char_digit, div10_le; lia].
  destruct E' as [Ed Er]. rewrite <- date_key_chars in Ed. rewrite Ed in G2.
  split; [exact G1|]. split; [exact G2|].
  assert (Et : tm = EmptyString /\ group p 4 = None).
  { destruct G4 as [G4|[Wt _]]; [exact G4|].
    apply rgx_time_digit in Wt. lia. }
  destruct Et as [-> G4']. split; [exact G4'|].
  exists b, rest. split; [exact G5|]. rewrite append_nil_l in Er. auto.
Qed.

Lemma valid_date_bounds y m d :
  Datetime.valid (Datetime.mk_datetime y m d 0 0 0) = true ->
  1 <= m <= 12 /\ 1 <= d <= 31.
Proof.
  unfold Datetime.valid.
  cbn [Datetime.year Datetime.month Datetime.day Datetime.hour
       Datetime.minute Datetime.second].
  rewrite !andb_true_iff, !Nat.leb_le.
  intros [[[[[[[_ H1] H2] H3] H4] _] _] _].
  split; [lia|]. split; [exact H3|].
  assert (Datetime.days_in_month y m <= 31); [|lia].
  unfold Datetime.days_in_month.
  do 12 (destruct m as [|m]; [try destruct (Datetime.is_leap y); lia|]). lia.
Qed.

(** The timestamp of a key that holds one date between texts without
    digits is that date at midnight. *)
Lemma one_date_timestamp P Q y m d p :
  1900 <= y <= 2099 ->
  Datetime.valid (Datetime.mk_datetime y m d 0 0 0) = true ->
  ndigits P = 0 -> ndigits Q = 0 ->
  dt_match (P +:+ date_key y m d +:+ Q) = Some p ->
  timestamp_of p = Ok (Datetime.mk_datetime y m d 0 0 0).
Proof.
  intros Hy Hv HP HQ Hp.
  destruct (valid_date_bounds y m d Hv) as [Hm Hd].
  assert (Hc : y / 100 <= 99) by (destruct (century y Hy) as [-> | ->]; lia).
  destruct (one_date_groups P Q y m d p) as (_ & G2 & G4 & _);
    try assumption; try lia.
  unfold timestamp_of.
  rewrite (datetime_str_of_groups p (date_key y m d) EmptyString G2)
    by (left; auto).
  rewrite strip_date_key by lia.
  change (sub_optset_empty separators EmptyString) with EmptyString.
  rewrite append_nil_r, length_date_key.
  change (getitem d_dt_fmt 8)
    with (@Ok Datetime.format [Datetime.dY; Datetime.dm; Datetime.dd]).
  cbn [bind]. rewrite strptime_date_key by lia. rewrite Hv. reflexivity.
Qed.

Lemma one_date_tag P y m d p :
  1900 <= y <= 2099 -> m <= 19 -> d <= 39 -> ndigits P = 0 ->
  dt_match (P +:+ date_key y m d) = Some p ->
  tag_of p = sub_optset_empty separators (Str.lower P).
Proof.
  intros Hy Hm Hd HP Hp.
  rewrite <- (append_nil_r (date_key y m d)) in Hp.
  destruct (one_date_groups P EmptyString y m d p)
    as (G1 & _ & _ & b & rest & G5 & E); try assumption; try reflexivity.
  unfold tag_of. rewrite G1, G5. cbn [from_option id].
  destruct b; [|discriminate E]. rewrite append_nil_r. reflexivity.
Qed.

Section DateKeys.

Variable F : Type.
Variable nan : F.
Variable literal_value : string -> F.

Local Abbreviation pyvalue := (pyvalue F).
Local Abbreviation extract := (extractDateValueAttributes F nan literal_value).
Local Abbreviation init := (d_date_value_init F).
Local Abbreviation float_or_nan := (float_or_nan F nan literal_value).

Lemma one_date_extract P Q y m d (value : pyvalue) :
  1900 <= y <= 2099 ->
  Datetime.valid (Datetime.mk_datetime y m d 0 0 0) = true ->
  ndigits P = 0 -> ndigits Q = 0 -> no_newline P = true ->
  exists p k,
    dt_match (P +:+ date_key y m d +:+ Q) = Some p /\ bucket_of p k /\
    extract [(P +:+ date_key y m d +:+ Q, value)] =
    Ok (<[ k := [(Datetime.mk_datetime y m d 0 0 0, float_or_nan value)] ]>
          init).
Proof.
  intros Hy Hv HP HQ HL.
  destruct (valid_date_bounds y m d Hv) as [Hm Hd].
  destruct (one_date_matches P Q y m d) as [p Hp]; try assumption; try lia.
  pose proof (one_date_timestamp P Q y m d p Hy Hv HP HQ Hp) as Ht.
  destruct (extract_one F nan literal_value (P +:+ date_key y m d +:+ Q) value)
    as [[Hm' _]|[(p' & e & Hm' & Ht' & _)|(p' & ts & k & Hm' & Ht' & Hk & E)]].
  - congruence.
  - rewrite Hp in Hm'. injection Hm' as <-. congruence.
  - rewrite Hp in Hm'. injection Hm' as <-.
    rewrite Ht in Ht'. injection Ht' as <-.
    exists p, k. auto.
Qed.

(** X5.  A key made of a text without digits and the eight digits of a date
    of the years 1900 to 2099, the form [DYYYYMMDD] of the docstring, is
    recorded with exactly that date at midnight, in the bucket of the text;
    the same holds in some bucket when a text without digits follows the
    date. *)
Theorem date_key_round_trip (prefix suffix : string) (y m d : nat)
    (value : pyvalue) :
  1900 <= y <= 2099 ->
  Datetime.valid (Datetime.mk_datetime y m d 0 0 0) = true ->
  ndigits prefix = 0 -> no_newline prefix = true -> ndigits suffix = 0 ->
  exists k,
    In k bucket_keys /\
    extract [(prefix +:+ date_key y m d +:+ suffix, value)] =
    Ok (<[ k := [(Datetime.mk_datetime y m d 0 0 0, float_or_nan value)] ]>
          init) /\
    (suffix = EmptyString ->
     exists base sfx,
       component (sub_optset_empty separators (Str.lower prefix)) base /\
       variant (sub_optset_empty separators (Str.lower prefix)) sfx /\
       k = base +:+ sfx).
Proof.
  intros Hy Hv HP HL HQ.
  destruct (one_date_extract prefix suffix y m d value Hy Hv HP HQ HL)
    as (p & k & Hp & Hk & E).
  exists k. split; [eapply bucket_of_in_keys; exact Hk|]. split; [exact E|].
  intros ->. rewrite append_nil_r in Hp.
  destruct (valid_date_bounds y m d Hv) as [Hm Hd].
  destruct Hk as (base & sfx & C & V & ->).
  rewrite (one_date_tag prefix y m d p) in C, V by (assumption || lia).
  exists base, sfx. auto.
Qed.

(** X6.  The two key formats of the docstring, [YYYYMMDD] and [DYYYYMMDD]
    in either case of the letter: the value goes to the bucket [los] with
    the date of the key. *)
Theorem documented_keys_fill_los (y m d : nat) (value : pyvalue) :
  1900 <= y <= 2099 ->
  Datetime.valid (Datetime.mk_datetime y m d 0 0 0) = true ->
  forall prefix, In prefix [""; "D"; "d"] ->
    extract [(prefix +:+ date_key y m d, value)] =
    Ok (<[ "los" := [(Datetime.mk_datetime y m d 0 0 0, float_or_nan value)] ]>
          init).
Proof.
  intros Hy Hv prefix Hin.
  assert (HP : ndigits prefix = 0 /\ no_newline prefix = true /\
               component (sub_optset_empty separators (Str.lower prefix)) "los"
               /\ variant (sub_optset_empty separators (Str.lower prefix)) "").
  { assert (Hu : forall t, t = "" \/ t = "d" -> ~ uncertainty_tag t).
    { intros t Ht [U|[U|U]]; destruct U as (a & b & E);
        destruct Ht as [-> | ->];
        destruct a as [|? [|? ?]]; discriminate E. }
    assert (Hc : forall t, t = "" \/ t = "d" -> component t "los").
    { intros t [-> | ->]; [left; auto|].
      right; right; right.
      repeat split;
        try (intros (a & b & E); destruct a as [|? [|? ?]]; discriminate E).
      intros [E|(a & b & E)]; [discriminate E|].
      destruct a as [|? [|? ?]]; discriminate E. }
    destruct Hin as [<- |[<- |[<- |[]]]];
      (split; [reflexivity|]); (split; [reflexivity|]);
      (split; [apply Hc | right; split; [apply Hu | reflexivity]]);
      auto. }
  destruct HP as (HP & HL & C & V).
  destruct (one_date_extract prefix "" y m d value Hy Hv HP eq_refl HL)
    as (p & k & Hp & Hk & E).
  rewrite append_nil_r in Hp, E. rewrite E.
  destruct (valid_date_bounds y m d Hv) as [Hm Hd].
  destruct Hk as (base & sfx & C' & V' & ->).
  rewrite (one_date_tag prefix y m d p) in C', V' by (assumption || lia).
  rewrite (component_unique _ _ _ C' C), (variant_unique _ _ _ V' V).
  reflexivity.
Qed.

End DateKeys.

(** ** The attributes of a feature *)

Lemma dict_setitem_new {V : Type} (items : list (string * V)) k v :
  ~ In k (map fst items) -> dict_setitem items k v = (items ++ [(k, v)])%list.
Proof.
  induction items as [|[k' v'] items IH]; cbn [dict_setitem map fst In app];
    [reflexivity|].
  intros H. destruct (String.eqb k' k) eqn:E.
  - apply String.eqb_eq in E. tauto.
  - rewrite IH by tauto. reflexivity.
Qed.

Lemma dict_setitem_key_iff {V : Type} (items : list (string * V)) k v k0 :
  In k0 (map fst (dict_setitem items k v)) <->
  k0 = k \/ In k0 (map fst items).
Proof.
  induction items as [|[k' v'] items IH]; cbn [dict_setitem map fst In].
  - intuition congruence.
  - destruct (String.eqb k' k) eqn:E; cbn [map fst In].
    + apply String.eqb_eq in E. subst k'. intuition congruence.
    + rewrite IH. tauto.
Qed.

Lemma dict_setitem_spec {V : Type} (items : list (string * V)) k v :
  List.NoDup (map fst items) ->
  List.NoDup (map fst (dict_setitem items k v)) /\
  forall k0 v0,
    In (k0, v0) (dict_setitem items k v) <->
    (k0 = k /\ v0 = v) \/ (k0 <> k /\ In (k0, v0) items).
Proof.
  induction items as [|[k' v'] items IH]; cbn [dict_setitem map fst In].
  - intros _. split; [constructor; [intros []|constructor]|].
    intros k0 v0. split.
    + intros [[= <- <-]|[]]. auto.
    + intros [[-> ->]|[_ []]]. auto.
  - intros N. inversion N as [|? ? Hk' N']; subst.
    destruct (IH N') as [IH1 IH2].
    destruct (String.eqb k' k) eqn:E.
    + apply String.eqb_eq in E. subst k'. split; [exact N|].
      intros k0 v0. cbn [In]. split.
      * intros [[= <- <-]|H]; [auto|]. right. split; [|auto].
        intros ->. apply Hk'. apply (in_map fst) in H. exact H.
      * intros [[-> ->]|[Hn [[= <- <-]|H]]]; auto. congruence.
    + assert (k' <> k) by (intros ->; rewrite String.eqb_refl in E; discriminate).
      split.
      * cbn [map fst]. constructor; [|exact IH1].
        rewrite dict_setitem_key_iff. tauto.
      * intros k0 v0. cbn [In]. rewrite IH2. split.
        -- intros [[= <- <-]|[[-> ->]|[Hn H']]]; auto.
        -- intros [[-> ->]|[Hn [[= <- <-]|H']]]; auto.
Qed.

Lemma fold_setitem {V : Type} (g : string -> V) (names : list string) :
  forall acc : list (string * V),
    List.NoDup (map fst acc) -> (forall k v, In (k, v) acc -> v = g k) ->
    List.NoDup (map fst (fold_left (fun d n => dict_setitem d n (g n)) names acc))
    /\
    forall k v,
      In (k, v) (fold_left (fun d n => dict_setitem d n (g n)) names acc) <->
      (In k (map fst acc) \/ In k names) /\ v = g k.
Proof.
  induction names as [|n names IH]; intros acc N Hg; cbn [fold_left].
  - split; [exact N|]. intros k v. split.
    + intros H. split; [left; apply (in_map fst) in H; exact H | auto].
    + intros [[H|[]] ->]. apply in_map_iff in H.
      destruct H as ([k' v'] & <- & H). cbn [fst].
      rewrite <- (Hg _ _ H). exact H.
  - destruct (dict_setitem_spec acc n (g n) N) as [N1 S1].
    destruct (IH (dict_setitem acc n (g n)) N1) as [N2 S2].
    { intros k v H. apply S1 in H. destruct H as [[-> ->]|[_ H]]; auto. }
    split; [exact N2|]. intros k v. rewrite S2, dict_setitem_key_iff.
    cbn [In]. intuition congruence.
Qed.

Lemma fold_setitem_distinct {V : Type} (g : string -> V)
    (names : list string) :
  forall acc : list (string * V),
    List.NoDup names -> (forall k, In k names -> ~ In k (map fst acc)) ->
    fold_left (fun d n => dict_setitem d n (g n)) names acc =
    (acc ++ map (fun n => (n, g n)) names)%list.
Proof.
  induction names as [|n names IH]; intros acc N D; cbn [fold_left map].
  - rewrite app_nil_r. reflexivity.
  - inversion N as [|? ? Hn N']; subst.
    rewrite dict_setitem_new by (apply D; left; reflexivity).
    rewrite IH; [rewrite <- app_assoc; reflexivity | exact N' |].
    intros k Hk. rewrite map_app, in_app_iff. cbn [map fst In].
    intros [H|[<-|[]]]; [|exact (Hn Hk)]. apply (D k); [right; exact Hk | exact H].
Qed.

Lemma getFeatureAttributes_keys {F : Type} (feature : QgsFeature F) :
  List.NoDup (map fst (getFeatureAttributes feature)).
Proof.
  unfold getFeatureAttributes.
  apply (fold_setitem (feature_getitem feature) (feature_fields feature) []);
    [constructor | intros k v []].
Qed.

Lemma getFeatureAttributes_In {F : Type} (feature : QgsFeature F) k v :
  In (k, v) (getFeatureAttributes feature) <->
  In k (feature_fields feature) /\ v = feature_getitem feature k.
Proof.
  unfold getFeatureAttributes.
  destruct (fold_setitem (feature_getitem feature) (feature_fields feature) [])
    as [_ S]; [constructor | intros ? ? [] |].
  rewrite S. cbn [map In]. tauto.
Qed.

(** X10.  The attributes of a feature: one item for each field name,
    however often the name occurs among the fields, with the value the
    feature has under that name; when the field names are distinct the
    items are the fields in their order. *)
Theorem getFeatureAttributes_items {F : Type} (feature : QgsFeature F) :
  List.NoDup (map fst (getFeatureAttributes feature)) /\
  (forall k v,
     In (k, v) (getFeatureAttributes feature) <->
     In k (feature_fields feature) /\ v = feature_getitem feature k) /\
  (List.NoDup (feature_fields feature) ->
   getFeatureAttributes feature =
   map (fun name => (name, feature_getitem feature name))
       (feature_fields feature)).
Proof.
  split; [apply getFeatureAttributes_keys|].
  split; [apply getFeatureAttributes_In|].
  intros D. unfold getFeatureAttributes.
  rewrite fold_setitem_distinct; [reflexivity | exact D |].
  intros k _ [].
Qed.

(** ** The time-series check and the parser *)

Lemma usable_checkVectorLayer (l : Layer) :
  usable (Some l) -> checkVectorLayer (Some l) = (true, EmptyString).
Proof.
  intros U.
  destruct (checkVectorLayer_cases (Some l)) as [[_ E]|(m & Hf & _)];
    [exact E|].
  exfalso. apply (rejected_not_usable (Some l)); [|exact U].
  eapply failure_rejected. exact Hf.
Qed.

Lemma usable_timeseries (l : Layer) :
  usable (Some l) ->
  checkVectorLayerTimeseries (Some l) =
  if timeseries_loop (fields l) then (true, EmptyString)
  else (false, msg_timeseries).
Proof.
  intros U. unfold checkVectorLayerTimeseries.
  rewrite (usable_checkVectorLayer l U). reflexivity.
Qed.

(** A key that matches holds eight digits at least. *)
Lemma dt_key_digits key : dt_key key -> 8 <= ndigits key.
Proof.
  unfold dt_key, dt_match. rewrite rgx_dt_match_iff.
  intros (a & d & rest & E & _ & Wd).
  apply (f_equal ndigits) in E.
  rewrite ndigits_lower, !ndigits_app, (ndigits_date d Wd) in E. lia.
Qed.

(** X7.  The time-series check and the parser agree on the names: a layer
    the validator accepts passes the check exactly when one of its field
    names is a key the parser matches, although the check matches the name
    with IGNORECASE and the parser matches the lower-cased key without. *)
Theorem timeseries_check_agrees_with_parser (l : Layer) :
  usable (Some l) ->
  (checkVectorLayerTimeseries (Some l) = (true, EmptyString) <->
   exists name, In name (fields l) /\ dt_key name) /\
  (checkVectorLayerTimeseries (Some l) = (false, msg_timeseries) <->
   forall name, In name (fields l) -> dt_match name = None).
Proof.
  intros U. rewrite (usable_timeseries l U).
  pose proof (timeseries_loop_iff (fields l)) as T.
  destruct (timeseries_loop (fields l)).
  - destruct (proj1 T eq_refl) as (name & Hin & Hd).
    apply (proj1 (date_field_iff_dt_key name)) in Hd. split.
    + split; [eauto | reflexivity].
    + split; [discriminate|]. intros H. destruct Hd as [p Hp].
      rewrite (H name Hin) in Hp. discriminate.
  - assert (N : forall name, In name (fields l) -> dt_match name = None).
    { intros name Hin. destruct (dt_match name) as [p|] eqn:E; [|reflexivity].
      assert (D : date_field name)
        by (apply (proj2 (date_field_iff_dt_key name)); exists p; exact E).
      destruct T as [_ T]. discriminate T. eauto. }
    split.
    + split; [discriminate|]. intros (name & Hin & p & Hp).
      rewrite (N name Hin) in Hp. discriminate.
    + split; [intros _; exact N | reflexivity].
Qed.

Section CheckAndParser.

Variable F : Type.
Variable nan : F.
Variable literal_value : string -> F.

Local Abbreviation pyvalue := (pyvalue F).
Local Abbreviation buckets := (gmap string (list (Datetime.datetime * F))).
Local Abbreviation loop := (loop F nan literal_value).
Local Abbreviation extract := (extractDateValueAttributes F nan literal_value).
Local Abbreviation init := (d_date_value_init F).
Local Abbreviation float_or_nan := (float_or_nan F nan literal_value).

Lemma loop_no_match (items : list (string * pyvalue)) (d : buckets) :
  (forall key value, In (key, value) items -> dt_match key = None) ->
  loop items d = Ok d.
Proof.
  revert d. induction items as [|[key value] items IH]; intros d H;
    cbn [loop]; [reflexivity|].
  destruct (loop_body_cases F nan literal_value key value)
    as [[_ E]|[(p & e & Hm & _)|(p & ts & b & Hm & _)]].
  - rewrite E. cbn [bind]. apply IH. intros k v Hin. apply (H k v). right. exact Hin.
  - rewrite (H key value) in Hm by (left; reflexivity). discriminate.
  - rewrite (H key value) in Hm by (left; reflexivity). discriminate.
Qed.

Lemma entries_init : entries init = 0.
Proof. reflexivity. Qed.

Lemma matching_keys_pos (items : list (string * pyvalue)) key value :
  In (key, value) items -> dt_key key -> 1 <= matching_keys items.
Proof.
  intros Hin [p Hp]. unfold matching_keys.
  assert (H : In (key, value)
                 (List.filter (fun item => dt_keyb item.1) items)).
  { apply filter_In. split; [exact Hin|]. unfold dt_keyb. cbn [fst].
    rewrite Hp. reflexivity. }
  destruct (List.filter _ items); [destruct H | cbn [length]; lia].
Qed.

(** X4.  Every pair the parser records has a timestamp of the years 1900 to
    2099 that is a date and time of the calendar. *)
Theorem recorded_timestamps_in_range (attributes : list (string * pyvalue))
    (d : buckets) :
  extract attributes = Ok d ->
  forall k ts x,
    In (ts, x) (bucket d k) ->
    1900 <= Datetime.year ts <= 2099 /\ Datetime.valid ts = true.
Proof.
  intros H k ts x Hin.
  apply (extract_pairs_iff F nan literal_value attributes d H) in Hin.
  destruct Hin as (key & value & p & _ & Hm & Ht & _).
  exact (timestamp_range key p ts Hm Ht).
Qed.

(** X8.  What the check tells about the features of a layer the validator
    accepts: when the check fails, the parser returns the six buckets empty
    on the attributes of every feature, and raises nothing; when the check
    passes, the parser records at least one pair unless it raises. *)
Theorem check_predicts_parser (l : Layer) (feature : QgsFeature F) :
  usable (Some l) -> feature_fields feature = fields l ->
  (checkVectorLayerTimeseries (Some l) = (false, msg_timeseries) ->
   extract (getFeatureAttributes feature) = Ok init) /\
  (checkVectorLayerTimeseries (Some l) = (true, EmptyString) ->
   forall d, extract (getFeatureAttributes feature) = Ok d ->
             1 <= entries d).
Proof.
  intros U Ef. rewrite (usable_timeseries l U).
  pose proof (timeseries_loop_iff (fields l)) as T.
  pose proof (getFeatureAttributes_In feature) as S.
  destruct (timeseries_loop (fields l)).
  - split; [discriminate|]. intros _ d Hd.
    destruct (proj1 T eq_refl) as (name & Hin & Hdf).
    apply (proj1 (date_field_iff_dt_key name)) in Hdf.
    unfold extractDateValueAttributes in Hd.
    rewrite (loop_entries F nan literal_value _ _ _ Hd), entries_init.
    assert (1 <= matching_keys (getFeatureAttributes feature)); [|lia].
    apply (matching_keys_pos _ name (feature_getitem feature name));
      [|exact Hdf].
    apply S. rewrite Ef. auto.
  - split; [|discriminate]. intros _.
    apply loop_no_match. intros key value Hin. apply S in Hin.
    destruct Hin as [Hin _]. rewrite Ef in Hin.
    destruct (dt_match key) as [p|] eqn:E; [|reflexivity].
    assert (D : date_field key)
      by (apply (proj2 (date_field_iff_dt_key key)); exists p; exact E).
    destruct T as [_ T]. discriminate T. eauto.
Qed.

(** X9.  A name with fewer than eight digits holds no date: a layer the
    validator accepts whose field names all have fewer fails the check,
    and the parser skips every key that has fewer. *)
Theorem names_without_eight_digits (l : Layer)
    (attributes : list (string * pyvalue)) :
  (usable (Some l) ->
   (forall name, In name (fields l) -> ndigits name < 8) ->
   checkVectorLayerTimeseries (Some l) = (false, msg_timeseries)) /\
  ((forall key value, In (key, value) attributes -> ndigits key < 8) ->
   extract attributes = Ok init).
Proof.
  assert (N : forall key, ndigits key < 8 -> dt_match key = None).
  { intros key Hk. destruct (dt_match key) as [p|] eqn:E; [|reflexivity].
    assert (8 <= ndigits key) by (apply dt_key_digits; exists p; exact E).
    lia. }
  split.
  - intros U H. rewrite (usable_timeseries l U).
    destruct (timeseries_loop (fields l)) eqn:T; [|reflexivity].
    apply timeseries_loop_iff in T. destruct T as (name & Hin & Hd).
    apply (proj1 (date_field_iff_dt_key name)) in Hd. destruct Hd as [p Hp].
    rewrite (N name (H name Hin)) in Hp. discriminate.
  - intros H. apply loop_no_match. intros key value Hin.
    apply N. exact (H key value Hin).
Qed.

End CheckAndParser.

(** ** The names of the velocity pattern *)








(** ** The preferences of the locator *)

Lemma inner_loop_Some o matches m :
  inner_loop o matches = Some m <-> first_holding o matches m.
Proof.
  unfold first_holding.
  induction matches as [|x matches IH]; cbn [inner_loop].
  - split; [discriminate|]. intros (pre & post & E & _).
    destruct pre; discriminate E.
  - destruct (Str.contains o x) eqn:C.
    + split.
      * intros [= <-]. exists [], matches. split; [reflexivity|].
        split; [apply contains_iff; exact C | intros ? []].
      * intros ([|y pre] & post & E & Ho & Hpre); injection E as -> E.
        -- reflexivity.
        -- exfalso. apply (Hpre y); [left; reflexivity|].
           apply contains_iff. exact C.
    + rewrite IH. split.
      * intros (pre & post & -> & Ho & Hpre). exists (x :: pre), post.
        split; [reflexivity|]. split; [exact Ho|].
        intros y [<-|Hy]; [|apply Hpre; exact Hy].
        intros H. apply contains_iff in H. congruence.
      * intros ([|y pre] & post & E & Ho & Hpre); injection E as -> E.
        -- apply contains_iff in Ho. congruence.
        -- exists pre, post. split; [exact E|]. split; [exact Ho|].
           intros z Hz. apply Hpre. right. exact Hz.
Qed.

Lemma inner_loop_hit o matches :
  (exists m, In m matches /\ occurs_in o m) ->
  exists m, inner_loop o matches = Some m.
Proof.
  intros (m & Hin & Ho).
  destruct (inner_loop o matches) as [x|] eqn:E; [eauto|].
  exfalso. exact (proj1 (inner_loop_None o matches) E m Hin Ho).
Qed.

Lemma outer_loop_chain matches (hit : list string) :
  forall o tail f m,
    (forall h, In h hit -> exists x, inner_loop h matches = Some x) ->
    inner_loop o matches = Some m ->
    (forall o' tail', tail = o' :: tail' -> inner_loop o' matches = None) ->
    outer_loop (hit ++ o :: tail) matches f = m.
Proof.
  induction hit as [|h hit IH]; intros o tail f m Hh Ho Ht;
    cbn [app outer_loop].
  - rewrite Ho. destruct tail as [|o' tail']; [reflexivity|].
    cbn [outer_loop]. rewrite (Ht o' tail' eq_refl). reflexivity.
  - destruct (Hh h (or_introl eq_refl)) as [x Hx]. rewrite Hx.
    apply IH; [|exact Ho|exact Ht].
    intros h' Hin. apply Hh. right. exact Hin.
Qed.

(** X12.  The preferences of the locator on two candidates or more: when
    the preferences up to one of them each occur in some candidate and the
    next preference, if there is one, occurs in none, the locator returns
    the first candidate in which the last of them occurs. *)
Theorem locator_preference_chain (layer : Layer) (m0 m1 : string)
    (rest hit : list string) (o : string) (tail : list string) :
  velocity_matches (fields layer) = m0 :: m1 :: rest ->
  velocity_field_name_options = (hit ++ o :: tail)%list ->
  (forall h, In h (hit ++ [o]) ->
     exists m, In m (m0 :: m1 :: rest) /\ occurs_in h m) ->
  (forall o' tail', tail = o' :: tail' ->
     forall m, In m (m0 :: m1 :: rest) -> ~ occurs_in o' m) ->
  exists m,
    first_holding o (m0 :: m1 :: rest) m /\
    getVectorVelocityFieldName layer = (Some m, EmptyString).
Proof.
  intros Em Eo Hh Ht.
  destruct (inner_loop_hit o (m0 :: m1 :: rest)) as [m Hm].
  { apply Hh. apply in_app_iff. right. left. reflexivity. }
  exists m. split; [apply inner_loop_Some; exact Hm|].
  unfold getVectorVelocityFieldName. rewrite Em, Eo.
  rewrite (outer_loop_chain (m0 :: m1 :: rest) hit o tail m0 m);
    [reflexivity | | exact Hm |].
  - intros h Hin. apply inner_loop_hit. apply Hh. apply in_app_iff. left.
    exact Hin.
  - intros o' tail' E. apply inner_loop_None. exact (Ht o' tail' E).
Qed.

(** ** The case of the names *)





Section CaseOfNames.

Variable F : Type.
Variable nan : F.
Variable literal_value : string -> F.

Local Abbreviation pyvalue := (pyvalue F).
Local Abbreviation buckets := (gmap string (list (Datetime.datetime * F))).
Local Abbreviation loop := (loop F nan literal_value).
Local Abbreviation extract := (extractDateValueAttributes F nan literal_value).




End CaseOfNames.

(** ** The further properties at concrete inputs *)

Lemma extract_pairs_witness :
  extractDateValueAttributes (option nat) None (fun _ => Some 0)
    [("h20200102_err", PyStr "NULL"); ("20200101", PyFloat (Some 5))] =
    Ok (<[ "los" := [(Datetime.mk_datetime 2020 1 1 0 0 0, Some 5)] ]>
          (<[ "h_sigma" := [(Datetime.mk_datetime 2020 1 2 0 0 0, None)] ]>
             (d_date_value_init (option nat)))) /\
  (In (Datetime.mk_datetime 2020 1 2 0 0 0, None)
      (bucket (<[ "los" := [(Datetime.mk_datetime 2020 1 1 0 0 0, Some 5)] ]>
                 (<[ "h_sigma" := [(Datetime.mk_datetime 2020 1 2 0 0 0, None)] ]>
                    (d_date_value_init (option nat)))) "h_sigma") <->
   exists key value p,
     In (key, value)
        [("h20200102_err", PyStr "NULL"); ("20200101", PyFloat (Some 5))] /\
     dt_match key = Some p /\
     timestamp_of p = Ok (Datetime.mk_datetime 2020 1 2 0 0 0) /\
     bucket_of p "h_sigma" /\
     None = float_or_nan (option nat) None (fun _ => Some 0) value).
Proof.
  assert (H : extractDateValueAttributes (option nat) None (fun _ => Some 0)
                [("h20200102_err", PyStr "NULL"); ("20200101", PyFloat (Some 5))] =
              Ok (<[ "los" := [(Datetime.mk_datetime 2020 1 1 0 0 0, Some 5)] ]>
                    (<[ "h_sigma" := [(Datetime.mk_datetime 2020 1 2 0 0 0, None)] ]>
                       (d_date_value_init (option nat)))))
    by (vm_compute; reflexivity).
  split; [exact H|].
  exact (extract_pairs (option nat) None (fun _ => Some 0) _ _ H
           "h_sigma" (Datetime.mk_datetime 2020 1 2 0 0 0) None).
Defined.

Lemma recorded_timestamps_in_range_witness :
  extractDateValueAttributes (option nat) None (fun _ => Some 0)
    [("20200101", PyFloat (Some 5))] =
    Ok (<[ "los" := [(Datetime.mk_datetime 2020 1 1 0 0 0, Some 5)] ]>
          (d_date_value_init (option nat))) /\
  In (Datetime.mk_datetime 2020 1 1 0 0 0, Some 5)
     (bucket (<[ "los" := [(Datetime.mk_datetime 2020 1 1 0 0 0, Some 5)] ]>
                (d_date_value_init (option nat))) "los") /\
  1900 <= Datetime.year (Datetime.mk_datetime 2020 1 1 0 0 0) <= 2099 /\
  Datetime.valid (Datetime.mk_datetime 2020 1 1 0 0 0) = true.
Proof.
  assert (H : extractDateValueAttributes (option nat) None (fun _ => Some 0)
                [("20200101", PyFloat (Some 5))] =
              Ok (<[ "los" := [(Datetime.mk_datetime 2020 1 1 0 0 0, Some 5)] ]>
                    (d_date_value_init (option nat))))
    by (vm_compute; reflexivity).
  assert (I : In (Datetime.mk_datetime 2020 1 1 0 0 0, Some 5)
                (bucket (<[ "los" := [(Datetime.mk_datetime 2020 1 1 0 0 0, Some 5)] ]>
                           (d_date_value_init (option nat))) "los"))
    by (vm_compute; left; reflexivity).
  split; [exact H|]. split; [exact I|].
  exact (recorded_timestamps_in_range (option nat) None (fun _ => Some 0)
           _ _ H "los" _ _ I).
Defined.

Lemma date_key_round_trip_witness :
  exists k,
    In k bucket_keys /\
    extractDateValueAttributes (option nat) None (fun _ => Some 0)
      [("H_" +:+ date_key 2020 2 29 +:+ EmptyString, PyFloat (Some 5))] =
    Ok (<[ k := [(Datetime.mk_datetime 2020 2 29 0 0 0,
                  float_or_nan (option nat) None (fun _ => Some 0)
                    (PyFloat (Some 5)))] ]>
          (d_date_value_init (option nat))) /\
    (EmptyString = EmptyString ->
     exists base sfx,
       component (sub_optset_empty separators (Str.lower "H_")) base /\
       variant (sub_optset_empty separators (Str.lower "H_")) sfx /\
       k = base +:+ sfx).
Proof.
  apply (date_key_round_trip (option nat) None (fun _ => Some 0)
           "H_" EmptyString 2020 2 29 (PyFloat (Some 5)));
    [lia | reflexivity | reflexivity | reflexivity | reflexivity].
Defined.

Lemma documented_keys_fill_los_witness :
  extractDateValueAttributes (option nat) None (fun _ => Some 0)
    [("D" +:+ date_key 1999 12 31, PyStr "NULL")] =
  Ok (<[ "los" := [(Datetime.mk_datetime 1999 12 31 0 0 0,
                    float_or_nan (option nat) None (fun _ => Some 0)
                      (PyStr "NULL"))] ]>
        (d_date_value_init (option nat))).
Proof.
  apply (documented_keys_fill_los (option nat) None (fun _ => Some 0)
           1999 12 31 (PyStr "NULL"));
    [lia | reflexivity | right; left; reflexivity].
Defined.

Lemma timeseries_check_agrees_with_parser_witness :
  usable (Some (mk_layer true VectorLayer 0 ["name"; "D20200101T1200"])) /\
  (checkVectorLayerTimeseries
     (Some (mk_layer true VectorLayer 0 ["name"; "D20200101T1200"])) =
   (true, EmptyString) <->
   exists name, In name ["name"; "D20200101T1200"] /\ dt_key name).
Proof.
  assert (U : usable (Some (mk_layer true VectorLayer 0
                              ["name"; "D20200101T1200"]))).
  { eexists. split; [reflexivity|]. split; [reflexivity|].
    split; [reflexivity | left; reflexivity]. }
  split; [exact U|].
  exact (proj1 (timeseries_check_agrees_with_parser _ U)).
Defined.

Lemma check_predicts_parser_witness :
  usable (Some (mk_layer true VectorLayer 2 ["name"; "velocity"])) /\
  (checkVectorLayerTimeseries
     (Some (mk_layer true VectorLayer 2 ["name"; "velocity"])) =
   (false, msg_timeseries) ->
   extractDateValueAttributes (option nat) None (fun _ => Some 0)
     (getFeatureAttributes
        {| feature_fields := ["name"; "velocity"];
           feature_getitem := fun _ => PyStr "3.5" |}) =
   Ok (d_date_value_init (option nat))).
Proof.
  assert (U : usable (Some (mk_layer true VectorLayer 2 ["name"; "velocity"]))).
  { eexists. split; [reflexivity|]. split; [reflexivity|].
    split; [reflexivity | right; reflexivity]. }
  split; [exact U|].
  exact (proj1 (check_predicts_parser (option nat) None (fun _ => Some 0)
                  (mk_layer true VectorLayer 2 ["name"; "velocity"])
                  {| feature_fields := ["name"; "velocity"];
                     feature_getitem := fun _ => PyStr "3.5" |}
                  U eq_refl)).
Defined.

Lemma locator_preference_chain_witness :
  exists m,
    first_holding "VEL" ["velocity_a"; "VEL_b"; "vel_c"] m /\
    getVectorVelocityFieldName
      (mk_layer true VectorLayer 0 ["velocity_a"; "id"; "VEL_b"; "vel_c"]) =
    (Some m, EmptyString).
Proof.
  apply (locator_preference_chain
           (mk_layer true VectorLayer 0 ["velocity_a"; "id"; "VEL_b"; "vel_c"])
           "velocity_a" "VEL_b" ["vel_c"] ["velocity"] "VEL"
           ["mean_velocity"; "deformation rate"]).
  - vm_compute. reflexivity.
  - reflexivity.
  - intros h [<-|[<-|[]]].
    + exists "velocity_a". split; [left; reflexivity|].
      exists EmptyString, "_a". reflexivity.
    + exists "VEL_b". split; [right; left; reflexivity|].
      exists EmptyString, "_b". reflexivity.
  - intros o' tail' E. injection E as <- <-.
    intros m [<-|[<-|[<-|[]]]] H; apply contains_iff in H; vm_compute in H;
      discriminate H.
Defined.
